(** * The EXIF lambda: batch processing and partial-failure accounting

    A shallow embedding of [src/lambdas/exif/handler.py].  The handler
    walks a notification envelope (SNS records, each carrying a JSON text
    that lists S3 change records), fetches every image, builds a metadata
    dictionary, stores it as a JSON sidecar and returns a summary with two
    counters and a status code.

    Python values are modelled by the data they carry, Python exceptions by
    an error type, and the statements of the handler by a state-and-error
    monad over the handler's local variables, its standard output and the
    object store. *)

From Stdlib Require Import ZArith Ascii String List Lia.
From stdpp Require Import base decidable option list strings pretty.

Local Open Scope Z_scope.
Local Open Scope list_scope.

Set Warnings "-register-all".

(** ** Python exceptions and results *)

(** Every constructor stands for a subclass of Python's [Exception]; these
    are the errors an [except Exception] clause catches. *)
Inductive exn : Type :=
  | KeyError (key : string)
  | TypeError
  | AttributeError
  | UnboundLocalError (var : string)
  | JSONDecodeError
  | LibraryError (msg : string).

Inductive result (A : Type) : Type :=
  | Ok (a : A)
  | Raise (e : exn).
Arguments Ok {A} a.
Arguments Raise {A} e.

Definition is_ok {A} (r : result A) : bool :=
  match r with Ok _ => true | Raise _ => false end.

Definition rbind {A B} (r : result A) (k : A -> result B) : result B :=
  match r with
  | Ok a => k a
  | Raise e => Raise e
  end.

Declare Scope result_scope.
Delimit Scope result_scope with result.
Notation "'let?' x ':=' r 'in' k" := (rbind r (fun x => k))
  (at level 10, x name, r at level 100, k at level 200) : result_scope.

(** ** Insertion-ordered dictionaries

    A Python [dict] keeps its items in insertion order, and an assignment
    to a key that is present replaces the value where it stands. *)
Module Dict.

Section WithValue.
Context {V : Type}.

Fixpoint get (k : string) (d : list (string * V)) : option V :=
  match d with
  | [] => None
  | (k', v) :: d' => if String.eqb k k' then Some v else get k d'
  end.

Fixpoint set (k : string) (v : V) (d : list (string * V)) : list (string * V) :=
  match d with
  | [] => [(k, v)]
  | (k', v') :: d' =>
      if String.eqb k k' then (k, v) :: d' else (k', v') :: set k v d'
  end.

Definition keys (d : list (string * V)) : list string := map fst d.

End WithValue.

End Dict.

(** ** JSON values, as [json.loads] and the Lambda runtime build them *)

Inductive json : Type :=
  | JNull
  | JBool (b : bool)
  | JInt (z : Z)
  | JFloat (literal : string)
  | JStr (s : string)
  | JArr (items : list json)
  | JObj (members : list (string * json)).

(** [d.get(key, default)]: only a dict has the method. *)
Definition py_get (d : json) (key : string) (default : json) : result json :=
  match d with
  | JObj members =>
      match Dict.get key members with
      | Some v => Ok v
      | None => Ok default
      end
  | _ => Raise AttributeError
  end.

(** [d[key]] with a string key. *)
Definition py_getitem (d : json) (key : string) : result json :=
  match d with
  | JObj members =>
      match Dict.get key members with
      | Some v => Ok v
      | None => Raise (KeyError key)
      end
  | _ => Raise TypeError
  end.

Fixpoint chars (s : string) : list json :=
  match s with
  | EmptyString => []
  | String c s' => JStr (String c EmptyString) :: chars s'
  end.

(** The items a [for] statement draws from a value: the elements of a list,
    the keys of a dict, the characters of a string; nothing else that JSON
    decodes to is iterable. *)
Definition py_iter (v : json) : result (list json) :=
  match v with
  | JArr items => Ok items
  | JObj members => Ok (map (fun kv => JStr (fst kv)) members)
  | JStr s => Ok (chars s)
  | _ => Raise TypeError
  end.

(** [len(v)] *)
Definition py_len (v : json) : result nat :=
  match v with
  | JArr items => Ok (length items)
  | JObj members => Ok (length members)
  | JStr s => Ok (String.length s)
  | _ => Raise TypeError
  end.

(** Lines 43-45: the bucket name and the object key of a change record. *)
Definition change_record (s3_event : json) : result (json * json) :=
  (let? s3_record := py_getitem s3_event "s3" in
   let? bucket := py_getitem s3_record "bucket" in
   let? bucket_name := py_getitem bucket "name" in
   let? object := py_getitem s3_record "object" in
   let? key := py_getitem object "key" in
   Ok (bucket_name, key))%result.

(** [str(n)] for an [int]. *)
Definition py_str_int (n : Z) : string := pretty n.

(** ** [pathlib]: the stem of a POSIX path *)
Module Path.

Fixpoint split (sep : ascii) (s : string) : list string :=
  match s with
  | EmptyString => [EmptyString]
  | String c s' =>
      if Ascii.eqb c sep then EmptyString :: split sep s'
      else match split sep s' with
           | p :: ps => String c p :: ps
           | [] => [String c EmptyString]
           end
  end.

Definition is_part (p : string) : bool :=
  negb (String.eqb p EmptyString) && negb (String.eqb p ".").

(** The components of a path: empty components and single dots are
    dropped when the path is parsed. *)
Definition parts (s : string) : list string :=
  List.filter is_part (split "/" s).

(** [PurePath.name]: the last component, empty when there is none. *)
Definition name (s : string) : string := List.last (parts s) EmptyString.

(** [str.rfind(c)], with [None] for -1. *)
Fixpoint rfind (c : ascii) (s : string) : option nat :=
  match s with
  | EmptyString => None
  | String a s' =>
      match rfind c s' with
      | Some i => Some (S i)
      | None => if Ascii.eqb a c then Some 0%nat else None
      end
  end.

(** [PurePath.stem]: the name without its last suffix; a leading or a
    trailing dot does not start a suffix (Python 3.8 to 3.13). *)
Definition stem (s : string) : string :=
  let n := name s in
  match rfind "." n with
  | Some i =>
      if (0 <? i)%nat && (i <? String.length n - 1)%nat
      then substring 0 i n else n
  | None => n
  end.

End Path.

(** ** Decoded images, as the imaging library presents them *)

(** An EXIF value is an arbitrary object; the handler only ever applies
    [str] to it, which returns a string or raises. *)
Record exif_value : Type := ExifValue { py_str : result string }.

Module Image.
(** [getexif] is [None] when the image object has no such attribute;
    otherwise it holds what the call [image.getexif()] gives: the items
    of the EXIF mapping, keyed by numeric tag, or an exception. *)
Record t : Type := Make {
  width : Z;
  height : Z;
  format : option string;
  mode : string;
  getexif : option (result (list (Z * exif_value)))
}.
End Image.

(** The values the handler puts in the metadata dictionary. *)
Inductive pyval : Type :=
  | VInt (z : Z)
  | VStr (s : string)
  | VNone.

Definition of_optional_str (o : option string) : pyval :=
  match o with Some s => VStr s | None => VNone end.

Definition is_str (v : pyval) : bool :=
  match v with VStr _ => true | _ => false end.

Definition metadata : Type := list (string * pyval).

Definition bytes : Type := list Byte.byte.

(** The [data] argument of [upload_to_s3]. *)
Inductive upload_data : Type :=
  | DataImage (img : Image.t)
  | DataText (body : string).

(** ** What the handler leaves behind *)

(** The lines written to standard output, one constructor per [print]. *)
Inductive line : Type :=
  | LTriggered
  | LReceived (n : nat)
  | LProcessing (bucket_name object_key : json)
  | LTagError (tag_id : Z) (e : exn)
  | LExtracted (text : string)
  | LUploaded (output_key : string)
  | LRecordFailed (object_key : json) (e : exn)
  | LEntryFailed (e : exn)
  | LComplete (processed_count failed_count : Z).

(** The requests issued to the object store. *)
Inductive s3_call : Type :=
  | DownloadFileobj (bucket key : json)
  | UploadFileobj (buffer : bytes) (bucket : json) (key : string)
  | PutObject (bucket : json) (key body content_type : string).

(** The dictionary the handler returns. *)
Record summary : Type := Summary {
  statusCode : Z;
  processed : Z;
  failed : Z
}.

(** ** The libraries and the object store

    [W] is the state of the world outside the handler.  The store client
    may answer any request with a value or an exception and change the
    world as it does so; the JSON codec and the image decoder are
    functions of their argument. *)
Record platform (W : Type) : Type := Platform {
  boto3_client : W -> result unit * W;
  download_fileobj : json -> json -> W -> result bytes * W;
  upload_fileobj : bytes -> json -> string -> W -> result unit * W;
  put_object : json -> string -> string -> string -> W -> result unit * W;
  Image_open : bytes -> result Image.t;
  Image_save : Image.t -> string -> result bytes;
  json_loads : string -> result json;
  json_dumps : metadata -> string
}.
Arguments boto3_client {W} _ _.
Arguments download_fileobj {W} _ _ _ _.
Arguments upload_fileobj {W} _ _ _ _ _.
Arguments put_object {W} _ _ _ _ _ _.
Arguments Image_open {W} _ _.
Arguments Image_save {W} _ _ _.
Arguments json_loads {W} _ _.
Arguments json_dumps {W} _ _.

(** ** The state of one invocation *)

(** The locals of [exif_handler] that live across iterations, the output
    and the world.  [object_key] is [None] until line 45 has bound it. *)
Record state (W : Type) : Type := State {
  processed_count : Z;
  failed_count : Z;
  object_key : option json;
  stdout : list line;
  s3_calls : list s3_call;
  world : W
}.
Arguments State {W} _ _ _ _ _ _.
Arguments processed_count {W} _.
Arguments failed_count {W} _.
Arguments object_key {W} _.
Arguments stdout {W} _.
Arguments s3_calls {W} _.
Arguments world {W} _.

Definition initial {W} (w : W) : state W := State 0 0 None [] [] w.

(** ** Statements: a state monad with exceptions

    A statement maps the state to a result and the state it leaves; an
    exception keeps the effects that came before it. *)
Definition M (W A : Type) : Type := state W -> result A * state W.

Definition ret {W A} (a : A) : M W A := fun s => (Ok a, s).

Definition bind {W A B} (m : M W A) (k : A -> M W B) : M W B :=
  fun s =>
    match m s with
    | (Ok a, s') => k a s'
    | (Raise e, s') => (Raise e, s')
    end.

Definition lift {W A} (r : result A) : M W A := fun s => (r, s).

(** [try: body / except Exception as e: handler] *)
Definition try_except {W A} (body : M W A) (handler : exn -> M W A) : M W A :=
  fun s =>
    match body s with
    | (Ok a, s') => (Ok a, s')
    | (Raise e, s') => handler e s'
    end.

Declare Scope py_scope.
Delimit Scope py_scope with py.
Notation "'let*' x ':=' m 'in' k" := (bind m (fun x => k))
  (at level 10, x name, m at level 100, k at level 200) : py_scope.
Notation "m ';;' k" := (bind m (fun _ => k))
  (at level 100, k at level 200, right associativity) : py_scope.

(** [for x in xs: body]; an exception leaves the loop. *)
Fixpoint for_each {W A} (xs : list A) (body : A -> M W unit) : M W unit :=
  match xs with
  | [] => ret tt
  | x :: xs' => (body x ;; for_each xs' body)%py
  end.

Section Handler.
Context {W : Type} (P : platform W).
Local Open Scope py_scope.

(** [print]: the line goes to the output.  Python's [print] raises on a
    text it cannot encode, which a bucket name or an object key can be (see
    [printable] below); this one does not, so the embedding follows the
    code on the records whose bucket name and key can be printed, and the
    statements that rest on lines 47 and 91 say so. *)
Definition print (l : line) : M W unit :=
  fun s => (Ok tt, State (processed_count s) (failed_count s) (object_key s)
                         (stdout s ++ [l]) (s3_calls s) (world s)).

Definition request (c : s3_call) : M W unit :=
  fun s => (Ok tt, State (processed_count s) (failed_count s) (object_key s)
                         (stdout s) (s3_calls s ++ [c]) (world s)).

(** A call into the store client. *)
Definition extern {A} (f : W -> result A * W) : M W A :=
  fun s =>
    let (r, w) := f (world s) in
    (r, State (processed_count s) (failed_count s) (object_key s)
              (stdout s) (s3_calls s) w).

Definition set_counts (p f : Z) : M W unit :=
  fun s => (Ok tt, State p f (object_key s) (stdout s) (s3_calls s) (world s)).

Definition incr_processed : M W unit :=
  fun s => set_counts (processed_count s + 1) (failed_count s) s.

Definition incr_failed : M W unit :=
  fun s => set_counts (processed_count s) (failed_count s + 1) s.

Definition assign_object_key (k : json) : M W unit :=
  fun s => (Ok tt, State (processed_count s) (failed_count s) (Some k)
                         (stdout s) (s3_calls s) (world s)).

(** Reading the local [object_key]: an error while it is unbound. *)
Definition read_object_key : M W json :=
  fun s =>
    match object_key s with
    | Some k => (Ok k, s)
    | None => (Raise (UnboundLocalError "object_key"), s)
    end.

Definition download_from_s3 (bucket key : json) : M W Image.t :=
  extern (boto3_client P) ;;
  request (DownloadFileobj bucket key) ;;
  let* buffer := extern (download_fileobj P bucket key) in
  lift (Image_open P buffer).

Definition upload_to_s3 (bucket : json) (key : string) (data : upload_data)
    (content_type : string) : M W unit :=
  extern (boto3_client P) ;;
  match data with
  | DataImage img =>
      let* buffer := lift (Image_save P img "JPEG") in
      request (UploadFileobj buffer bucket key) ;;
      extern (upload_fileobj P buffer bucket key)
  | DataText body =>
      request (PutObject bucket key body content_type) ;;
      extern (put_object P bucket key body content_type)
  end.

(** [json.loads(v)]: the argument must be a string. *)
Definition loads (v : json) : result json :=
  match v with
  | JStr s => json_loads P s
  | _ => Raise TypeError
  end.

(** [Path(v).stem]: the argument must be a string. *)
Definition path_stem (v : json) : result string :=
  match v with
  | JStr s => Ok (Path.stem s)
  | _ => Raise TypeError
  end.

Definition output_key_of (filename : string) : string :=
  "processed/exif/" +:+ filename +:+ ".json".

(** Lines 53-58. *)
Definition base_metadata (image : Image.t) : metadata :=
  [ ("width"%string, VInt (Image.width image));
    ("height"%string, VInt (Image.height image));
    ("format"%string, of_optional_str (Image.format image));
    ("mode"%string, VStr (Image.mode image)) ].

(** Lines 65-70: one tag at a time, each under its own [try]. *)
Fixpoint add_tags (tags : list (Z * exif_value)) (exif_data : metadata)
    : M W metadata :=
  match tags with
  | [] => ret exif_data
  | (tag_id, value) :: tags' =>
      let* exif_data' :=
        try_except
          (let* rendered := lift (py_str value) in
           ret (Dict.set (py_str_int tag_id) (VStr rendered) exif_data))
          (fun e => print (LTagError tag_id e) ;; ret exif_data) in
      add_tags tags' exif_data'
  end.

(** Lines 53-70. *)
Definition build_metadata (image : Image.t) : M W metadata :=
  let exif_data := base_metadata image in
  match Image.getexif image with
  | None => ret exif_data
  | Some call =>
      let* exif := lift call in
      match exif with
      | [] => ret exif_data
      | _ :: _ => add_tags exif exif_data
      end
  end.

(** Lines 43-86: the body of the inner [try]. *)
Definition record_body (s3_event : json) : M W unit :=
  let* names := lift (change_record s3_event) in
  let bucket_name := fst names in
  let key := snd names in
  assign_object_key key ;;
  print (LProcessing bucket_name key) ;;
  let* image := download_from_s3 bucket_name key in
  let* exif_data := build_metadata image in
  print (LExtracted (json_dumps P exif_data)) ;;
  let* filename := lift (path_stem key) in
  let output_key := output_key_of filename in
  upload_to_s3 bucket_name output_key (DataText (json_dumps P exif_data))
               "application/json" ;;
  print (LUploaded output_key) ;;
  incr_processed.

(** Lines 88-91: the inner [except] clause. *)
Definition record_handler (e : exn) : M W unit :=
  incr_failed ;;
  let* key := read_object_key in
  print (LRecordFailed key e).

(** Lines 42-91: one change record. *)
Definition process_record (s3_event : json) : M W unit :=
  try_except (record_body s3_event) record_handler.

(** Lines 38 and 41: the change records of one SNS record. *)
Definition decode_entry (sns_record : json) : result (list json) :=
  (let? sns := py_getitem sns_record "Sns" in
   let? message := py_getitem sns "Message" in
   let? sns_message := loads message in
   let? records := py_get sns_message "Records" (JArr []) in
   py_iter records)%result.

(** Lines 38-91: the body of the outer [try]. *)
Definition entry_body (sns_record : json) : M W unit :=
  let* s3_events := lift (decode_entry sns_record) in
  for_each s3_events process_record.

(** Lines 93-95: the outer [except] clause. *)
Definition entry_handler (e : exn) : M W unit :=
  print (LEntryFailed e) ;;
  incr_failed.

(** Lines 36-95: one SNS record. *)
Definition process_entry (sns_record : json) : M W unit :=
  try_except (entry_body sns_record) entry_handler.

Definition status_of (failed_count : Z) : Z :=
  if failed_count =? 0 then 200 else 207.

Definition exif_handler (event : json) : M W summary :=
  print LTriggered ;;
  let* records := lift (py_get event "Records" (JArr [])) in
  let* n := lift (py_len records) in
  print (LReceived n) ;;
  set_counts 0 0 ;;
  let* records := lift (py_get event "Records" (JArr [])) in
  let* sns_records := lift (py_iter records) in
  for_each sns_records process_entry ;;
  fun s =>
    let summary := Summary (status_of (failed_count s))
                           (processed_count s) (failed_count s) in
    (print (LComplete (processed_count s) (failed_count s)) ;; ret summary) s.

(** One invocation, from a fresh frame. *)
Definition invoke (event : json) (w : W) : result summary * state W :=
  exif_handler event (initial w).

End Handler.

(** ** A JSON codec to run the handler on concrete events

    The theorems below hold for every platform, hence for every decoder.
    To evaluate the handler on a concrete event a decoder is needed: this
    one reads the fragment of JSON made of objects, arrays, strings without
    escape sequences, integers, [true], [false] and [null], and raises on
    any other text.  A later binding of a repeated key replaces the earlier
    one, as in [json.loads]. *)
Module MiniJson.

Definition dq : ascii := "034"%char.

Definition is_ws (c : ascii) : bool :=
  let n := nat_of_ascii c in
  (n =? 32)%nat || (n =? 9)%nat || (n =? 10)%nat || (n =? 13)%nat.

Definition is_digit (c : ascii) : bool :=
  let n := nat_of_ascii c in (48 <=? n)%nat && (n <=? 57)%nat.

Definition digit_value (c : ascii) : Z := Z.of_nat (nat_of_ascii c - 48).

Fixpoint skip_ws (s : string) : string :=
  match s with
  | String c s' => if is_ws c then skip_ws s' else s
  | EmptyString => s
  end.

Fixpoint digits (s : string) (acc : Z) : Z * string :=
  match s with
  | String c s' =>
      if is_digit c then digits s' (10 * acc + digit_value c) else (acc, s)
  | EmptyString => (acc, s)
  end.

(** An integer literal: no leading zero before another digit. *)
Definition natural (s : string) : option (Z * string) :=
  match s with
  | String c s' =>
      if Ascii.eqb c "0" then Some (0, s')
      else if is_digit c then Some (digits s 0)
      else None
  | EmptyString => None
  end.

(** The characters up to the closing quote. *)
Fixpoint str_body (s : string) : option (string * string) :=
  match s with
  | EmptyString => None
  | String c s' =>
      if Ascii.eqb c dq then Some (EmptyString, s')
      else if Ascii.eqb c "\" || (nat_of_ascii c <? 32)%nat then None
      else match str_body s' with
           | Some (t, rest) => Some (String c t, rest)
           | None => None
           end
  end.

Definition keyword (kw : string) (v : json) (s : string)
    : option (json * string) :=
  if String.prefix kw s
  then Some (v, substring (String.length kw)
                          (String.length s - String.length kw) s)
  else None.

Fixpoint value (fuel : nat) (s : string) : option (json * string) :=
  match fuel with
  | O => None
  | S fuel' =>
      match skip_ws s with
      | EmptyString => None
      | String c s' =>
          if Ascii.eqb c "{" then
            match skip_ws s' with
            | String c' s'' =>
                if Ascii.eqb c' "}" then Some (JObj [], s'')
                else members fuel' s' []
            | EmptyString => None
            end
          else if Ascii.eqb c "[" then
            match skip_ws s' with
            | String c' s'' =>
                if Ascii.eqb c' "]" then Some (JArr [], s'')
                else elements fuel' s' []
            | EmptyString => None
            end
          else if Ascii.eqb c dq then
            match str_body s' with
            | Some (t, rest) => Some (JStr t, rest)
            | None => None
            end
          else if Ascii.eqb c "-" then
            match natural s' with
            | Some (n, rest) => Some (JInt (- n), rest)
            | None => None
            end
          else if is_digit c then
            match natural (String c s') with
            | Some (n, rest) => Some (JInt n, rest)
            | None => None
            end
          else if Ascii.eqb c "t" then keyword "true" (JBool true) (String c s')
          else if Ascii.eqb c "f" then keyword "false" (JBool false) (String c s')
          else if Ascii.eqb c "n" then keyword "null" JNull (String c s')
          else None
      end
  end
with members (fuel : nat) (s : string) (acc : list (string * json))
    : option (json * string) :=
  match fuel with
  | O => None
  | S fuel' =>
      match skip_ws s with
      | String c s' =>
          if Ascii.eqb c dq then
            match str_body s' with
            | Some (k, rest) =>
                match skip_ws rest with
                | String c' rest' =>
                    if Ascii.eqb c' ":" then
                      match value fuel' rest' with
                      | Some (v, rest'') =>
                          let acc' := Dict.set k v acc in
                          match skip_ws rest'' with
                          | String c'' tail =>
                              if Ascii.eqb c'' "," then members fuel' tail acc'
                              else if Ascii.eqb c'' "}" then Some (JObj acc', tail)
                              else None
                          | EmptyString => None
                          end
                      | None => None
                      end
                    else None
                | EmptyString => None
                end
            | None => None
            end
          else None
      | EmptyString => None
      end
  end
with elements (fuel : nat) (s : string) (acc : list json)
    : option (json * string) :=
  match fuel with
  | O => None
  | S fuel' =>
      match value fuel' s with
      | Some (v, rest) =>
          match skip_ws rest with
          | String c tail =>
              if Ascii.eqb c "," then elements fuel' tail (acc ++ [v])
              else if Ascii.eqb c "]" then Some (JArr (acc ++ [v]), tail)
              else None
          | EmptyString => None
          end
      | None => None
      end
  end.

Definition loads (s : string) : result json :=
  match value (S (String.length s)) s with
  | Some (v, rest) =>
      match skip_ws rest with
      | EmptyString => Ok v
      | String _ _ => Raise JSONDecodeError
      end
  | None => Raise JSONDecodeError
  end.

Definition quoted (s : string) : string :=
  String dq s +:+ String dq EmptyString.

(** The compact JSON text of a value. *)
Fixpoint encode (v : json) : string :=
  match v with
  | JNull => "null"
  | JBool true => "true"
  | JBool false => "false"
  | JInt z => pretty z
  | JFloat literal => literal
  | JStr s => quoted s
  | JArr items =>
      "[" +:+
      (fix go (l : list json) : string :=
         match l with
         | [] => EmptyString
         | [x] => encode x
         | x :: l' => encode x +:+ "," +:+ go l'
         end) items +:+ "]"
  | JObj ms =>
      "{" +:+
      (fix go (l : list (string * json)) : string :=
         match l with
         | [] => EmptyString
         | [(k, x)] => quoted k +:+ ":" +:+ encode x
         | (k, x) :: l' => quoted k +:+ ":" +:+ encode x +:+ "," +:+ go l'
         end) ms +:+ "}"
  end.

Definition of_pyval (v : pyval) : json :=
  match v with
  | VInt z => JInt z
  | VStr s => JStr s
  | VNone => JNull
  end.

(** The text of a metadata dictionary, layout aside. *)
Definition dumps (m : metadata) : string :=
  encode (JObj (map (fun kv => (fst kv, of_pyval (snd kv))) m)).

End MiniJson.


(** ** A store and a decoder to run the handler on *)
Module Demo.

(** A photograph with two EXIF tags, the second of which has a value
    that cannot be rendered. *)
Definition photo : Image.t :=
  Image.Make 640 480 (Some "JPEG"%string) "RGB"
    (Some (Ok [ (271, ExifValue (Ok "Canon"%string));
                (37500, ExifValue (Raise (LibraryError "undecodable"))) ])).

(** A scan without EXIF data. *)
Definition scan : Image.t :=
  Image.Make 100 200 (Some "PNG"%string) "L" (Some (Ok [])).

Definition decode (buffer : bytes) : result Image.t :=
  match buffer with
  | [] => Raise (LibraryError "UnidentifiedImageError")
  | [_] => Ok scan
  | _ => Ok photo
  end.

(** The world is the list of objects in the store. *)
Definition store : Type := list (string * string * bytes).

Fixpoint find (bucket key : string) (w : store) : option bytes :=
  match w with
  | [] => None
  | (b, k, body) :: w' =>
      if String.eqb b bucket && String.eqb k key then Some body
      else find bucket key w'
  end.

Definition download (bucket key : json) (w : store) : result bytes * store :=
  match bucket, key with
  | JStr b, JStr k =>
      match find b k w with
      | Some body => (Ok body, w)
      | None => (Raise (LibraryError "NoSuchKey"), w)
      end
  | _, _ => (Raise (LibraryError "ParamValidationError"), w)
  end.

Definition put (bucket : json) (key : string) (body : bytes) (w : store)
    : result unit * store :=
  match bucket with
  | JStr b => (Ok tt, (b, key, body) :: w)
  | _ => (Raise (LibraryError "ParamValidationError"), w)
  end.

Definition platform : platform store :=
  Platform store
    (fun w => (Ok tt, w))
    download
    (fun buffer bucket key w => put bucket key buffer w)
    (fun bucket key body _ w => put bucket key (list_byte_of_string body) w)
    decode
    (fun _ _ => Ok [Byte.xff; Byte.xd8])
    MiniJson.loads
    MiniJson.dumps.

(** An SNS record whose message is the JSON text of [payload]. *)
Definition sns_record (payload : json) : json :=
  JObj [("Sns"%string, JObj [("Message"%string, JStr (MiniJson.encode payload))])].

Definition change (bucket key : string) : json :=
  JObj [("s3"%string,
         JObj [("bucket"%string, JObj [("name"%string, JStr bucket)]);
               ("object"%string, JObj [("key"%string, JStr key)])])].

Definition event (entries : list json) : json :=
  JObj [("Records"%string, JArr entries)].

Definition photos : store :=
  [ ("album"%string, "photos/trip/img001.JPG"%string, [Byte.xff; Byte.xd8]);
    ("album"%string, "scans/page.png"%string, [Byte.x89]) ].

End Demo.


(** * Notions used in the statements *)

Section Notions.
Context {W : Type}.

(** [keeps f m]: the statement [m] leaves the component [f] of the state
    as it found it, whether it returns or raises. *)
Definition keeps {X A} (f : state W -> X) (m : M W A) : Prop :=
  forall s, f (snd (m s)) = f s.

(** The effect of a statement on the counter of successes: [d] more when
    it returns, none when it raises. *)
Definition adds_processed {A} (d : Z) (m : M W A) : Prop :=
  forall s, processed_count (snd (m s))
            = processed_count s + (if is_ok (fst (m s)) then d else 0).

End Notions.

(** A change record whose bucket name and object key can be read. *)
Definition well_keyed (s3_event : json) : bool := is_ok (change_record s3_event).

(** An envelope, as the notification service delivers it: an object whose
    [Records], when present, is an array.  Nothing is asked of the
    entries. *)
Definition is_envelope (event : json) : bool :=
  match event with
  | JObj members =>
      match Dict.get "Records" members with
      | None | Some (JArr _) => true
      | Some _ => false
      end
  | _ => false
  end.

(** The entries of an envelope. *)
Definition entries_of (event : json) : list json :=
  match event with
  | JObj members =>
      match Dict.get "Records" members with
      | Some (JArr entries) => entries
      | _ => []
      end
  | _ => []
  end.

(** The change records decoded from the entries, and the entries whose
    payload does not decode. *)
Fixpoint decoded_records {W} (P : platform W) (entries : list json) : nat :=
  match entries with
  | [] => O
  | e :: entries' =>
      match decode_entry P e with
      | Ok records => (length records + decoded_records P entries')%nat
      | Raise _ => decoded_records P entries'
      end
  end.

Fixpoint decode_failures {W} (P : platform W) (entries : list json) : nat :=
  match entries with
  | [] => O
  | e :: entries' =>
      match decode_entry P e with
      | Ok _ => decode_failures P entries'
      | Raise _ => S (decode_failures P entries')
      end
  end.

(** The state in which the loop over the entries starts. *)
Definition loop_start {W} (n : nat) (w : W) : state W :=
  State 0 0 None [LTriggered; LReceived n] [] w.

(** Every change record of every decodable entry is well keyed. *)
Definition all_well_keyed {W} (P : platform W) (entries : list json) : Prop :=
  forall e records,
    In e entries -> decode_entry P e = Ok records ->
    Forall (fun r => well_keyed r = true) records.

(** The lines the tag loop prints: one for each tag whose value does not
    render. *)
Fixpoint tag_errors (tags : list (Z * exif_value)) : list line :=
  match tags with
  | [] => []
  | (tag_id, value) :: tags' =>
      match py_str value with
      | Ok _ => tag_errors tags'
      | Raise e => LTagError tag_id e :: tag_errors tags'
      end
  end.

(** A state with more lines on standard output. *)
Definition printed {W} (s : state W) (out : list line) : state W :=
  State (processed_count s) (failed_count s) (object_key s)
        (stdout s ++ out) (s3_calls s) (world s).

(** What [download_from_s3] asks of the world: a client, the object, an
    image out of its bytes. *)
Definition fetched {W} (P : platform W) (bucket key : json) (w : W)
    : result Image.t * W :=
  match boto3_client P w with
  | (Ok _, w1) =>
      match download_fileobj P bucket key w1 with
      | (Ok buffer, w2) => (Image_open P buffer, w2)
      | (Raise e, w2) => (Raise e, w2)
      end
  | (Raise e, w1) => (Raise e, w1)
  end.

(** What [upload_to_s3] asks of the world for a text: a client, and the
    object put. *)
Definition stored {W} (P : platform W) (bucket : json)
    (key body content_type : string) (w : W) : result unit * W :=
  match boto3_client P w with
  | (Ok _, w1) => put_object P bucket key body content_type w1
  | (Raise e, w1) => (Raise e, w1)
  end.

(** The lines that report a failure, of a record or of an entry, and
    their number in an output. *)
Definition is_failure_line (l : line) : bool :=
  match l with
  | LRecordFailed _ _ | LEntryFailed _ => true
  | _ => false
  end.

Fixpoint failure_lines (out : list line) : Z :=
  match out with
  | [] => 0
  | l :: out' => (if is_failure_line l then 1 else 0) + failure_lines out'
  end.

(** The number of failures reported so far. *)
Definition reported {W} (s : state W) : Z := failure_lines (stdout s).

(** Whether a character occurs in a string. *)
Fixpoint occurs (c : ascii) (s : string) : bool :=
  match s with
  | EmptyString => false
  | String a s' => Ascii.eqb a c || occurs c s'
  end.

(** Whether a string starts like the decimal rendering of an integer. *)
Definition numeric_head (s : string) : bool :=
  match s with
  | String c _ =>
      let n := nat_of_ascii c in
      ((48 <=? n)%nat && (n <=? 57)%nat) || Ascii.eqb c "-"
  | EmptyString => false
  end.

Definition base_keys : list string :=
  ["width"; "height"; "format"; "mode"]%string.

(** The dictionary the tag loop leaves: the tags whose value renders, in
    order, over the initial entries. *)
Fixpoint rendered_tags (tags : list (Z * exif_value)) (d : metadata) : metadata :=
  match tags with
  | [] => d
  | (tag_id, value) :: tags' =>
      match py_str value with
      | Ok rendered =>
          rendered_tags tags' (Dict.set (py_str_int tag_id) (VStr rendered) d)
      | Raise _ => rendered_tags tags' d
      end
  end.

(** The dictionary built for an image (lines 53-70), and the lines printed
    on the way. *)
Definition metadata_of (image : Image.t) : result metadata :=
  match Image.getexif image with
  | None => Ok (base_metadata image)
  | Some (Raise e) => Raise e
  | Some (Ok tags) => Ok (rendered_tags tags (base_metadata image))
  end.

Definition metadata_lines (image : Image.t) : list line :=
  match Image.getexif image with
  | Some (Ok tags) => tag_errors tags
  | _ => []
  end.

(** The state a change record leaves when every step succeeds. *)
Definition after_record {W} (P : platform W) (s : state W) (bucket : json)
    (k : string) (image : Image.t) (m : metadata) (w : W) : state W :=
  State (processed_count s + 1) (failed_count s) (Some (JStr k))
        (stdout s ++ [LProcessing bucket (JStr k)] ++ metadata_lines image
           ++ [LExtracted (json_dumps P m);
               LUploaded (output_key_of (Path.stem k))])
        (s3_calls s
           ++ [DownloadFileobj bucket (JStr k);
               PutObject bucket (output_key_of (Path.stem k)) (json_dumps P m)
                         "application/json"])
        w.

(** The requests of an invocation: downloads, each of which may be
    followed at once by the put of its sidecar, in the same bucket, under
    the key derived from the object's.  Nothing else is requested. *)
Inductive sidecar_trace : list s3_call -> Prop :=
  | trace_done : sidecar_trace []
  | trace_fetch bucket key rest :
      sidecar_trace rest ->
      sidecar_trace (DownloadFileobj bucket key :: rest)
  | trace_store bucket k body rest :
      sidecar_trace rest ->
      sidecar_trace
        (DownloadFileobj bucket (JStr k)
         :: PutObject bucket (output_key_of (Path.stem k)) body "application/json"
         :: rest).

(** The number of lines that report an upload. *)
Fixpoint uploaded_lines (out : list line) : Z :=
  match out with
  | [] => 0
  | LUploaded _ :: out' => 1 + uploaded_lines out'
  | _ :: out' => uploaded_lines out'
  end.

(** Whether the value of a tag renders. *)
Definition renders (tag : Z * exif_value) : bool := is_ok (py_str (snd tag)).

(** [steps R m]: the statement [m] takes every state to one related to it
    by [R], whether it returns or raises. *)
Definition steps {W A} (R : state W -> state W -> Prop) (m : M W A) : Prop :=
  forall s, R s (snd (m s)).

(** The requests of [s'] are those of [s] followed by a sidecar trace. *)
Definition extends_trace {W} (s s' : state W) : Prop :=
  exists extra, s3_calls s' = s3_calls s ++ extra /\ sidecar_trace extra.

(** From [s] to [s'] as many successes were counted as uploads reported. *)
Definition counts_uploads {W} (s s' : state W) : Prop :=
  processed_count s' - processed_count s
  = uploaded_lines (stdout s') - uploaded_lines (stdout s).

(** [adds f d m]: the statement [m] adds [d] to the measure [f] when it
    returns and leaves it when it raises. *)
Definition adds {W A} (f : state W -> Z) (d : Z) (m : M W A) : Prop :=
  forall s, f (snd (m s)) = f s + (if is_ok (fst (m s)) then d else 0).

(** The uploads reported so far. *)
Definition uploaded {W} (s : state W) : Z := uploaded_lines (stdout s).

(** ** Text that cannot be printed

    A [str] is modelled by the bytes of its UTF-8 form, a surrogate code
    point by its three-byte form (ED A0..BF xx).  [json.loads] builds such a
    code point from a lone escape, and [print] raises [UnicodeEncodeError]
    on a text that holds one.  Inside a list or a dict a string is printed
    through [repr], which escapes it. *)
Definition is_surrogate_start (a b : ascii) : bool :=
  (nat_of_ascii a =? 237)%nat
  && (160 <=? nat_of_ascii b)%nat && (nat_of_ascii b <=? 191)%nat.

Fixpoint has_surrogate (s : string) : bool :=
  match s with
  | String a s' =>
      match s' with
      | String b _ => is_surrogate_start a b || has_surrogate s'
      | EmptyString => false
      end
  | EmptyString => false
  end.

(** Whether [str(v)] can be printed. *)
Definition printable (v : json) : bool :=
  match v with
  | JStr s => negb (has_surrogate s)
  | _ => true
  end.

(** A change record whose bucket name and object key can be read and
    printed. *)
Definition printable_record (s3_event : json) : bool :=
  match change_record s3_event with
  | Ok (bucket_name, key) => printable bucket_name && printable key
  | Raise _ => false
  end.

(** Every change record of every decodable entry can be read and printed. *)
Definition all_printable {W} (P : platform W) (entries : list json) : Prop :=
  forall e records,
    In e entries -> decode_entry P e = Ok records ->
    Forall (fun r => printable_record r = true) records.

(** The state after a failure was counted (line 89), after a failed record
    was counted and reported (lines 89-91), and after a failed entry was
    reported and counted (lines 94-95). *)
Definition counted {W} (s : state W) : state W :=
  State (processed_count s) (failed_count s + 1) (object_key s)
        (stdout s) (s3_calls s) (world s).

Definition record_failed {W} (k : json) (e : exn) (s : state W) : state W :=
  State (processed_count s) (failed_count s + 1) (Some k)
        (stdout s ++ [LRecordFailed k e]) (s3_calls s) (world s).

Definition entry_failed {W} (e : exn) (s : state W) : state W :=
  State (processed_count s) (failed_count s + 1) (object_key s)
        (stdout s ++ [LEntryFailed e]) (s3_calls s) (world s).

(** How the body of the inner [try] ends for a record with the given
    bucket name and key, as the answers of the client, the store and the
    decoder decide it. *)
Definition record_outcome {W} (P : platform W) (bucket key : json) (w : W)
    : result unit :=
  match fetched P bucket key w with
  | (Raise e, _) => Raise e
  | (Ok image, w1) =>
      match metadata_of image with
      | Raise e => Raise e
      | Ok m =>
          match path_stem key with
          | Raise e => Raise e
          | Ok filename =>
              fst (stored P bucket (output_key_of filename) (json_dumps P m)
                          "application/json" w1)
          end
      end
  end.

(** * Dictionaries *)

Section DictFacts.
Context {V : Type}.
Implicit Types (d : list (string * V)) (k : string) (v : V).

Lemma get_set_eq k v d : Dict.get k (Dict.set k v d) = Some v.
Proof.
  induction d as [|[k' v'] d IH]; simpl.
  - now rewrite String.eqb_refl.
  - destruct (String.eqb k k') eqn:E; simpl.
    + now rewrite String.eqb_refl.
    + now rewrite E.
Qed.

Lemma get_set_ne k k' v d : k <> k' -> Dict.get k' (Dict.set k v d) = Dict.get k' d.
Proof.
  intros Hne. induction d as [|[k0 v0] d IH]; simpl.
  - destruct (String.eqb k' k) eqn:E; [|reflexivity].
    apply String.eqb_eq in E. congruence.
  - destruct (String.eqb k k0) eqn:E; simpl.
    + apply String.eqb_eq in E. subst k0.
      destruct (String.eqb k' k) eqn:E'; [|reflexivity].
      apply String.eqb_eq in E'. congruence.
    + now rewrite IH.
Qed.

Lemma get_None_keys k d : Dict.get k d = None <-> ~ In k (Dict.keys d).
Proof.
  induction d as [|[k' v'] d IH]; simpl.
  - tauto.
  - destruct (String.eqb k k') eqn:E.
    + apply String.eqb_eq in E. subst. split; [discriminate | tauto].
    + apply String.eqb_neq in E. rewrite IH. split.
      * intros H [H'|H']; [congruence | tauto].
      * tauto.
Qed.

Lemma keys_set_present k v d :
  In k (Dict.keys d) -> Dict.keys (Dict.set k v d) = Dict.keys d.
Proof.
  induction d as [|[k' v'] d IH]; simpl; [tauto|].
  destruct (String.eqb k k') eqn:E; simpl.
  - apply String.eqb_eq in E. now subst.
  - apply String.eqb_neq in E. intros [H|H]; [congruence|].
    now rewrite IH.
Qed.

Lemma keys_set_absent k v d :
  ~ In k (Dict.keys d) -> Dict.keys (Dict.set k v d) = Dict.keys d ++ [k].
Proof.
  induction d as [|[k' v'] d IH]; simpl; [reflexivity|].
  destruct (String.eqb k k') eqn:E; simpl.
  - apply String.eqb_eq in E. subst. tauto.
  - intros H. rewrite IH; tauto.
Qed.
End DictFacts.

(** * Paths *)

Section PathFacts.

Lemma split_nonempty sep s : Path.split sep s <> [].
Proof.
  destruct s as [|c s]; simpl; [discriminate|].
  destruct (Ascii.eqb c sep); [discriminate|].
  destruct (Path.split sep s); discriminate.
Qed.

Lemma split_no_sep sep s : occurs sep s = false -> Path.split sep s = [s].
Proof.
  induction s as [|c s IH]; simpl; [reflexivity|].
  destruct (Ascii.eqb c sep); simpl; [discriminate|].
  intros H. now rewrite IH.
Qed.

Lemma split_app_sep sep dir rest :
  Path.split sep (dir +:+ String sep rest)
  = Path.split sep dir ++ Path.split sep rest.
Proof.
  induction dir as [|c dir IH]; simpl.
  - now rewrite Ascii.eqb_refl.
  - destruct (Ascii.eqb c sep); simpl.
    + now rewrite IH.
    + rewrite IH. pose proof (split_nonempty sep dir) as Hne.
      destruct (Path.split sep dir); [congruence | reflexivity].
Qed.

Lemma rfind_absent c s : occurs c s = false -> Path.rfind c s = None.
Proof.
  induction s as [|a s IH]; simpl; [reflexivity|].
  destruct (Ascii.eqb a c); simpl; [discriminate|].
  intros H. now rewrite IH.
Qed.

Lemma rfind_last c base ext :
  occurs c ext = false ->
  Path.rfind c (base +:+ String c ext) = Some (String.length base).
Proof.
  intros H. induction base as [|a base IH]; simpl.
  - rewrite (rfind_absent c ext H). now rewrite Ascii.eqb_refl.
  - now rewrite IH.
Qed.

Lemma substring_prefix base rest :
  substring 0 (String.length base) (base +:+ rest) = base.
Proof.
  induction base as [|a base IH]; simpl.
  - now destruct rest.
  - now rewrite IH.
Qed.

Lemma length_append (a b : string) :
  String.length (a +:+ b) = (String.length a + String.length b)%nat.
Proof. induction a as [|c a IH]; simpl; [reflexivity | now rewrite IH]. Qed.

Lemma occurs_append c (a b : string) :
  occurs c (a +:+ b) = occurs c a || occurs c b.
Proof.
  induction a as [|x a IH]; simpl; [reflexivity|].
  rewrite IH. now rewrite orb_assoc.
Qed.

(** The stem of a file name made of a base and an extension. *)
Lemma stem_of_file_name base ext :
  base <> EmptyString -> ext <> EmptyString -> occurs "." ext = false ->
  let n := base +:+ String "." ext in
  match Path.rfind "." n with
  | Some i =>
      if (0 <? i)%nat && (i <? String.length n - 1)%nat
      then substring 0 i n else n
  | None => n
  end = base.
Proof.
  intros Hb He Hdot n. subst n. rewrite (rfind_last "." base ext Hdot).
  rewrite length_append. simpl String.length.
  destruct base as [|a base]; [congruence|].
  destruct ext as [|x ext]; [congruence|].
  simpl String.length.
  replace (0 <? S (String.length base))%nat with true
    by (symmetry; apply Nat.ltb_lt; lia).
  replace (S (String.length base)
           <? S (String.length base) + S (S (String.length ext)) - 1)%nat
    with true by (symmetry; apply Nat.ltb_lt; lia).
  simpl andb. cbv iota.
  apply (substring_prefix (String a base) (String "." (String x ext))).
Qed.

Lemma file_name_is_part base ext :
  base <> EmptyString -> Path.is_part (base +:+ String "." ext) = true.
Proof.
  destruct base as [|a [|b base]]; [congruence| |]; intros _.
  - unfold Path.is_part. simpl.
    destruct (Ascii.eqb a "."); reflexivity.
  - unfold Path.is_part. simpl.
    destruct (Ascii.eqb a "."); reflexivity.
Qed.

(** A key [dir/base.ext]: the directory and the extension are dropped. *)
Lemma stem_of_key dir base ext :
  base <> EmptyString -> occurs "/" base = false ->
  ext <> EmptyString -> occurs "/" ext = false -> occurs "." ext = false ->
  Path.stem (dir +:+ String "/" (base +:+ String "." ext)) = base.
Proof.
  intros Hb Hbs He Hes Hed.
  assert (Hname : Path.name (dir +:+ String "/" (base +:+ String "." ext))
                  = base +:+ String "." ext).
  { unfold Path.name, Path.parts. rewrite split_app_sep.
    rewrite List.filter_app.
    rewrite (split_no_sep "/" (base +:+ String "." ext)).
    - simpl List.filter. rewrite (file_name_is_part base ext Hb).
      apply List.last_last.
    - rewrite occurs_append. simpl. now rewrite Hbs, Hes. }
  unfold Path.stem. rewrite Hname. now apply stem_of_file_name.
Qed.

(** A key without a directory. *)
Lemma stem_of_bare_key base ext :
  base <> EmptyString -> occurs "/" base = false ->
  ext <> EmptyString -> occurs "/" ext = false -> occurs "." ext = false ->
  Path.stem (base +:+ String "." ext) = base.
Proof.
  intros Hb Hbs He Hes Hed.
  assert (Hname : Path.name (base +:+ String "." ext) = base +:+ String "." ext).
  { unfold Path.name, Path.parts.
    rewrite (split_no_sep "/" (base +:+ String "." ext)).
    - simpl List.filter. now rewrite (file_name_is_part base ext Hb).
    - rewrite occurs_append. simpl. now rewrite Hbs, Hes. }
  unfold Path.stem. rewrite Hname. now apply stem_of_file_name.
Qed.

End PathFacts.

(** * Reasoning about statements *)

Section Frames.
Context {W : Type}.

Lemma bind_ok_inv {A B} (m : M W A) (k : A -> M W B) s b s' :
  bind m k s = (Ok b, s') ->
  exists a s1, m s = (Ok a, s1) /\ k a s1 = (Ok b, s').
Proof.
  unfold bind. destruct (m s) as [[a|e] s1]; [eauto | discriminate].
Qed.

Lemma bind_ok {A B} (m : M W A) (k : A -> M W B) s a s1 :
  m s = (Ok a, s1) -> bind m k s = k a s1.
Proof. unfold bind. now intros ->. Qed.

Lemma bind_raise {A B} (m : M W A) (k : A -> M W B) s e s1 :
  m s = (Raise e, s1) -> bind m k s = (Raise e, s1).
Proof. unfold bind. now intros ->. Qed.


Lemma keeps_ret {X A} (f : state W -> X) (a : A) : keeps f (ret a).
Proof. intros s. reflexivity. Qed.

Lemma keeps_lift {X A} (f : state W -> X) (r : result A) : keeps f (lift r).
Proof. intros s. reflexivity. Qed.

Lemma keeps_bind {X A B} (f : state W -> X) (m : M W A) (k : A -> M W B) :
  keeps f m -> (forall a, keeps f (k a)) -> keeps f (bind m k).
Proof.
  intros Hm Hk s. unfold bind. specialize (Hm s).
  destruct (m s) as [[a|e] s1]; simpl in *; [|assumption].
  now rewrite Hk.
Qed.

Lemma keeps_try_except {X A} (f : state W -> X) (m : M W A) h :
  keeps f m -> (forall e, keeps f (h e)) -> keeps f (try_except m h).
Proof.
  intros Hm Hh s. unfold try_except. specialize (Hm s).
  destruct (m s) as [[a|e] s1]; simpl in *; [assumption|].
  now rewrite Hh.
Qed.

Lemma keeps_for_each {X A} (f : state W -> X) (xs : list A) body :
  (forall x, keeps f (body x)) -> keeps f (for_each xs body).
Proof.
  intros Hb. induction xs as [|x xs IH]; simpl.
  - apply keeps_ret.
  - apply keeps_bind; auto.
Qed.


Lemma adds_processed_bind {A B} d (m : M W A) (k : A -> M W B) :
  keeps processed_count m -> (forall a, adds_processed d (k a)) ->
  adds_processed d (bind m k).
Proof.
  intros Hm Hk s. unfold bind. specialize (Hm s).
  destruct (m s) as [[a|e] s1]; simpl in *.
  - rewrite Hk. now rewrite Hm.
  - lia.
Qed.

End Frames.

(** Statements that touch one component of the state keep the others. *)
Ltac keeps_primitive :=
  let s := fresh "s" in
  intros s;
  repeat match goal with
         | |- context [extern ?f s] => unfold extern; destruct (f (world s))
         | |- context [read_object_key s] =>
             unfold read_object_key; destruct (object_key s)
         end;
  reflexivity.

Ltac keeps_step :=
  first
    [ apply keeps_ret | apply keeps_lift
    | apply keeps_bind | apply keeps_try_except | apply keeps_for_each
    | match goal with H : _ |- _ => apply H end
    | solve [keeps_primitive]
    | progress unfold download_from_s3, upload_to_s3 ].

Ltac keeps_auto :=
  repeat first
    [ match goal with |- forall _, _ => intro end
    | progress cbv beta zeta iota
    | keeps_step ].

Section Facts.
Context {W : Type} (P : platform W).

(** ** What each part of the handler may change *)

Lemma add_tags_keeps {X} (f : state W -> X) :
  (forall l, keeps f (print l)) ->
  forall tags d, keeps f (add_tags tags d).
Proof.
  intros Hp tags. induction tags as [|[tag_id value] tags IH]; intros d; simpl.
  - apply keeps_ret.
  - keeps_auto.
Qed.

Lemma build_metadata_keeps {X} (f : state W -> X) image :
  (forall l, keeps f (print l)) ->
  keeps f (build_metadata image).
Proof.
  intros Hp. unfold build_metadata.
  destruct (Image.getexif image) as [call|]; keeps_auto.
  destruct a; keeps_auto. now apply add_tags_keeps.
Qed.


Lemma incr_processed_adds : adds_processed (W:=W) 1 incr_processed.
Proof. intros s. reflexivity. Qed.

(** ** One change record *)

(** A record without a bucket name or an object key raises before
    anything else happens. *)
Lemma record_body_malformed s3_event e s :
  change_record s3_event = Raise e ->
  record_body P s3_event s = (Raise e, s).
Proof.
  intros H. unfold record_body.
  apply bind_raise. unfold lift. now rewrite H.
Qed.

(** Once the key is read, [object_key] is bound for good, and the body
    counts one success exactly when it reaches its end. *)
Lemma record_body_keyed s3_event b k s :
  change_record s3_event = Ok (b, k) ->
  object_key (snd (record_body P s3_event s)) = Some k
  /\ failed_count (snd (record_body P s3_event s)) = failed_count s
  /\ processed_count (snd (record_body P s3_event s))
     = processed_count s + (if is_ok (fst (record_body P s3_event s)) then 1 else 0).
Proof.
  intros H. unfold record_body.
  rewrite (bind_ok _ _ s (b, k) s) by (unfold lift; now rewrite H).
  cbv beta zeta. simpl fst. simpl snd.
  match goal with
  | |- context [bind (assign_object_key k) ?T s] =>
      set (tail := T tt)
  end.
  set (s1 := snd (assign_object_key (W:=W) k s)).
  change (bind (assign_object_key k) (fun _ => tail) s) with (tail s1).
  assert (Hk : keeps object_key tail)
    by (subst tail; keeps_auto; apply build_metadata_keeps; keeps_auto).
  assert (Hf : keeps failed_count tail)
    by (subst tail; keeps_auto; apply build_metadata_keeps; keeps_auto).
  assert (Hp : adds_processed 1 tail).
  { subst tail.
    repeat first
      [ match goal with |- forall _, _ => intro end
      | progress cbv beta zeta iota
      | apply incr_processed_adds
      | apply adds_processed_bind;
        [ solve [keeps_auto; apply build_metadata_keeps; keeps_auto] | ] ]. }
  rewrite (Hk s1), (Hf s1), (Hp s1). auto.
Qed.

(** The inner [except] clause when [object_key] is bound: one failure
    is counted and logged. *)
Lemma record_handler_bound e k (s : state W) :
  object_key s = Some k ->
  record_handler e s
  = (Ok tt, State (processed_count s) (failed_count s + 1) (Some k)
                  (stdout s ++ [LRecordFailed k e]) (s3_calls s) (world s)).
Proof.
  intros H. unfold record_handler, bind, incr_failed, set_counts,
    read_object_key, print. simpl. now rewrite H.
Qed.

(** The inner [except] clause when [object_key] was never bound: the
    failure is counted, and building the message raises. *)
Lemma record_handler_unbound e (s : state W) :
  object_key s = None ->
  record_handler e s
  = (Raise (UnboundLocalError "object_key"),
     State (processed_count s) (failed_count s + 1) None
           (stdout s) (s3_calls s) (world s)).
Proof.
  intros H. unfold record_handler, bind, incr_failed, set_counts,
    read_object_key. simpl. now rewrite H.
Qed.


(** A change record counts for exactly one, as a success or as a
    failure, when its own key can be read or an earlier record has left
    [object_key] bound. *)
Lemma process_record_counts_one s3_event s :
  well_keyed s3_event = true \/ object_key s <> None ->
  exists s',
    process_record P s3_event s = (Ok tt, s')
    /\ object_key s' <> None
    /\ ((processed_count s' = processed_count s + 1
         /\ failed_count s' = failed_count s)
        \/ (processed_count s' = processed_count s
            /\ failed_count s' = failed_count s + 1)).
Proof.
  intros H. unfold process_record, try_except, well_keyed in *.
  destruct (change_record s3_event) as [[b k]|x] eqn:E.
  - destruct (record_body_keyed s3_event b k s E) as (Hk & Hf & Hp).
    destruct (record_body P s3_event s) as [[[]|e] s1]; simpl in *.
    + exists s1. repeat split; [congruence | left; lia].
    + rewrite (record_handler_bound e k s1 Hk). eexists. split; [reflexivity|].
      simpl. split; [discriminate | right; lia].
  - destruct H as [H|H]; [discriminate|].
    rewrite (record_body_malformed s3_event x s E).
    destruct (object_key s) as [k|] eqn:Ek; [|congruence].
    rewrite (record_handler_bound x k s Ek). eexists. split; [reflexivity|].
    simpl. split; [discriminate | right; lia].
Qed.

(** The first record of an invocation whose key cannot be read: the
    failure is counted, no line is printed, and the exception leaves the
    loop over the records. *)
Lemma process_record_escapes s3_event e s :
  change_record s3_event = Raise e ->
  object_key s = None ->
  process_record P s3_event s
  = (Raise (UnboundLocalError "object_key"),
     State (processed_count s) (failed_count s + 1) None
           (stdout s) (s3_calls s) (world s)).
Proof.
  intros E Hk. unfold process_record, try_except.
  rewrite (record_body_malformed s3_event e s E).
  now apply record_handler_unbound.
Qed.

(** ** The records of one entry *)

Lemma records_count_one records : forall s,
  Forall (fun r => well_keyed r = true) records \/ object_key s <> None ->
  exists s',
    for_each records (process_record P) s = (Ok tt, s')
    /\ (object_key s <> None -> object_key s' <> None)
    /\ processed_count s <= processed_count s'
    /\ failed_count s <= failed_count s'
    /\ processed_count s' + failed_count s'
       = processed_count s + failed_count s + Z.of_nat (length records).
Proof.
  induction records as [|r records IH]; intros s H; simpl.
  - exists s. unfold ret. repeat split; auto; lia.
  - destruct (process_record_counts_one r s) as (s1 & E1 & K1 & C1).
    { destruct H as [H|H]; [left; now inversion H | now right]. }
    destruct (IH s1) as (s2 & E2 & K2 & P2 & F2 & C2); [now right|].
    exists s2. rewrite (bind_ok _ _ s tt s1 E1).
    repeat split; auto; lia.
Qed.

(** ** One SNS record *)

(** The outer [except] clause cannot raise, so an entry never does. *)
Lemma process_entry_returns sns_record s :
  exists s', process_entry P sns_record s = (Ok tt, s').
Proof.
  unfold process_entry, try_except.
  destruct (entry_body P sns_record s) as [[[]|e] s1]; eauto.
Qed.

Lemma process_entry_undecodable sns_record e s :
  decode_entry P sns_record = Raise e ->
  process_entry P sns_record s
  = (Ok tt, State (processed_count s) (failed_count s + 1) (object_key s)
                  (stdout s ++ [LEntryFailed e]) (s3_calls s) (world s)).
Proof.
  intros H. unfold process_entry, try_except, entry_body.
  rewrite (bind_raise _ _ s e s) by (unfold lift; now rewrite H).
  reflexivity.
Qed.

Lemma process_entry_decoded sns_record records s :
  decode_entry P sns_record = Ok records ->
  process_entry P sns_record s
  = try_except (for_each records (process_record P)) entry_handler s.
Proof.
  intros H. unfold process_entry, try_except, entry_body.
  rewrite (bind_ok _ _ s records s) by (unfold lift; now rewrite H).
  reflexivity.
Qed.

Lemma for_each_entries_returns entries : forall s,
  exists s', for_each entries (process_entry P) s = (Ok tt, s').
Proof.
  induction entries as [|x entries IH]; intros s; simpl.
  - eexists. reflexivity.
  - destruct (process_entry_returns x s) as (s1 & E1).
    rewrite (bind_ok _ _ s tt s1 E1). apply IH.
Qed.

End Facts.

(** * The handler as a whole *)

Section Invocation.
Context {W : Type} (P : platform W).

Lemma envelope_records event :
  is_envelope event = true ->
  exists records,
    py_get event "Records" (JArr []) = Ok records
    /\ py_len records = Ok (length (entries_of event))
    /\ py_iter records = Ok (entries_of event).
Proof.
  destruct event as [| | | | | |members]; try discriminate. simpl.
  destruct (Dict.get "Records" members) as [[| | | | |entries|]|];
    try discriminate; intros _; eexists; repeat split.
Qed.

(** On an envelope the handler runs the loop and returns the summary of
    the counters the loop leaves. *)
Lemma invoke_envelope event w s1 :
  is_envelope event = true ->
  for_each (entries_of event) (process_entry P)
           (loop_start (length (entries_of event)) w) = (Ok tt, s1) ->
  invoke P event w
  = (Ok (Summary (status_of (failed_count s1)) (processed_count s1) (failed_count s1)),
     State (processed_count s1) (failed_count s1) (object_key s1)
           (stdout s1 ++ [LComplete (processed_count s1) (failed_count s1)])
           (s3_calls s1) (world s1)).
Proof.
  intros Henv Hloop.
  destruct (envelope_records event Henv) as (records & Hget & Hlen & Hiter).
  unfold invoke, exif_handler.
  erewrite bind_ok by reflexivity.
  erewrite bind_ok by (unfold lift; rewrite Hget; reflexivity).
  erewrite bind_ok by (unfold lift; rewrite Hlen; reflexivity).
  erewrite bind_ok by reflexivity.
  erewrite bind_ok by reflexivity.
  erewrite bind_ok by (unfold lift; rewrite Hget; reflexivity).
  erewrite bind_ok by (unfold lift; rewrite Hiter; reflexivity).
  erewrite bind_ok by exact Hloop.
  reflexivity.
Qed.

(** Whatever the event, a summary that is returned reports the counters
    of the final state. *)
Lemma invoke_summary event w sm st :
  invoke P event w = (Ok sm, st) ->
  sm = Summary (status_of (failed_count st)) (processed_count st) (failed_count st).
Proof.
  unfold invoke, exif_handler. intros H.
  do 8 (apply bind_ok_inv in H; destruct H as (? & ? & _ & H)).
  unfold bind, print, ret in H. simpl in H.
  inversion H. reflexivity.
Qed.

(** The shape of the event itself is not checked: line 29 is outside
    every [try], and an event that is not an object, or whose [Records] has
    no length, makes the handler raise. *)
Lemma event_shape_is_not_checked w :
  fst (invoke P JNull w) = Raise AttributeError
  /\ fst (invoke P (JArr []) w) = Raise AttributeError
  /\ fst (invoke P (JObj [("Records"%string, JNull)]) w) = Raise TypeError.
Proof. repeat split. Qed.

End Invocation.

(** ** The trace of one change record *)

Section Trace.
Context {W : Type} (P : platform W).

Lemma keeps_run {X A} (f : state W -> X) (m : M W A) s r s' :
  keeps f m -> m s = (r, s') -> f s' = f s.
Proof. intros H E. specialize (H s). now rewrite E in H. Qed.

Lemma lift_inv {A} (r : result A) (s : state W) a s' :
  lift r s = (Ok a, s') -> r = Ok a /\ s' = s.
Proof. unfold lift. intros H. inversion H. auto. Qed.

Lemma printed_nil (s : state W) : printed s [] = s.
Proof. destruct s. unfold printed. simpl. now rewrite app_nil_r. Qed.

Lemma printed_app (s : state W) out out' :
  printed (printed s out) out' = printed s (out ++ out').
Proof. unfold printed. simpl. now rewrite app_assoc. Qed.

(** The tag loop never raises: it returns the dictionary of the tags that
    render and prints a line for each of the others. *)
Lemma add_tags_spec tags : forall d (s : state W),
  add_tags tags d s = (Ok (rendered_tags tags d), printed s (tag_errors tags)).
Proof.
  induction tags as [|[t v] tags IH]; intros d s.
  - simpl. unfold ret. now rewrite printed_nil.
  - cbn [add_tags rendered_tags tag_errors].
    destruct (py_str v) as [r|e].
    + erewrite bind_ok by reflexivity. apply IH.
    + erewrite bind_ok by reflexivity. rewrite IH.
      now rewrite (printed_app s [LTagError t e]).
Qed.

Lemma build_metadata_no_attribute image (s : state W) :
  Image.getexif image = None ->
  build_metadata image s = (Ok (base_metadata image), s).
Proof. intros H. unfold build_metadata. now rewrite H. Qed.

Lemma build_metadata_raises image e (s : state W) :
  Image.getexif image = Some (Raise e) ->
  build_metadata image s = (Raise e, s).
Proof. intros H. unfold build_metadata. now rewrite H. Qed.

Lemma build_metadata_tags image tags (s : state W) :
  Image.getexif image = Some (Ok tags) ->
  build_metadata image s
  = (Ok (rendered_tags tags (base_metadata image)), printed s (tag_errors tags)).
Proof.
  intros H. unfold build_metadata. rewrite H.
  erewrite bind_ok by reflexivity.
  destruct tags as [|tv tags].
  - simpl. unfold ret. now rewrite printed_nil.
  - apply add_tags_spec.
Qed.

(** Whenever a dictionary is built, it is the one of the rendered tags. *)
Lemma build_metadata_ok_inv image (s : state W) m s' :
  build_metadata image s = (Ok m, s') ->
  exists tags,
    (Image.getexif image = None /\ tags = []
     \/ Image.getexif image = Some (Ok tags))
    /\ m = rendered_tags tags (base_metadata image)
    /\ s' = printed s (tag_errors tags).
Proof.
  intros H. destruct (Image.getexif image) as [[tags|e]|] eqn:E.
  - rewrite (build_metadata_tags image tags s E) in H. inversion H. eauto.
  - rewrite (build_metadata_raises image e s E) in H. discriminate.
  - rewrite (build_metadata_no_attribute image s E) in H. inversion H.
    exists []. simpl. rewrite printed_nil. auto.
Qed.

Lemma download_from_s3_fetched bucket key s image w' :
  fetched P bucket key (world s) = (Ok image, w') ->
  download_from_s3 P bucket key s
  = (Ok image, State (processed_count s) (failed_count s) (object_key s)
                     (stdout s) (s3_calls s ++ [DownloadFileobj bucket key]) w').
Proof.
  unfold fetched, download_from_s3, bind, extern, request, lift. simpl.
  destruct (boto3_client P (world s)) as [[[]|e] w1]; [|discriminate]. simpl.
  destruct (download_fileobj P bucket key w1) as [[buffer|e] w2]; [|discriminate].
  intros H. now inversion H.
Qed.

Lemma download_from_s3_ok_inv bucket key s image s' :
  download_from_s3 P bucket key s = (Ok image, s') ->
  fetched P bucket key (world s) = (Ok image, world s')
  /\ s' = State (processed_count s) (failed_count s) (object_key s)
                (stdout s) (s3_calls s ++ [DownloadFileobj bucket key]) (world s').
Proof.
  unfold fetched, download_from_s3, bind, extern, request, lift. simpl.
  destruct (boto3_client P (world s)) as [[[]|e] w1]; [|discriminate]. simpl.
  destruct (download_fileobj P bucket key w1) as [[buffer|e] w2]; [|discriminate].
  intros H. inversion H. subst. auto.
Qed.

Lemma upload_to_s3_stored bucket key body ct s w' :
  stored P bucket key body ct (world s) = (Ok tt, w') ->
  upload_to_s3 P bucket key (DataText body) ct s
  = (Ok tt, State (processed_count s) (failed_count s) (object_key s)
                  (stdout s) (s3_calls s ++ [PutObject bucket key body ct]) w').
Proof.
  unfold stored, upload_to_s3, bind, extern, request. simpl.
  destruct (boto3_client P (world s)) as [[[]|e] w1]; [|discriminate]. simpl.
  intros H. now rewrite H.
Qed.

Lemma upload_to_s3_ok_inv bucket key body ct s s' :
  upload_to_s3 P bucket key (DataText body) ct s = (Ok tt, s') ->
  stored P bucket key body ct (world s) = (Ok tt, world s')
  /\ s' = State (processed_count s) (failed_count s) (object_key s)
                (stdout s) (s3_calls s ++ [PutObject bucket key body ct]) (world s').
Proof.
  unfold stored, upload_to_s3, bind, extern, request. simpl.
  destruct (boto3_client P (world s)) as [[[]|e] w1]; [|discriminate]. simpl.
  destruct (put_object P bucket key body ct w1) as [[[]|e] w2]; [|discriminate].
  intros H. inversion H. subst. auto.
Qed.

(** The tag loop aside, building the dictionary is a function of the
    image; all it does to the state is print. *)
Lemma build_metadata_spec image (s : state W) :
  build_metadata image s = (metadata_of image, printed s (metadata_lines image)).
Proof.
  unfold metadata_of, metadata_lines.
  destruct (Image.getexif image) as [[tags|e]|] eqn:E.
  - now rewrite (build_metadata_tags image tags s E).
  - rewrite (build_metadata_raises image e s E). now rewrite printed_nil.
  - rewrite (build_metadata_no_attribute image s E). now rewrite printed_nil.
Qed.


Lemma record_body_ok_inv s3_event s s' :
  record_body P s3_event s = (Ok tt, s') ->
  exists bucket k image m w1,
    change_record s3_event = Ok (bucket, JStr k)
    /\ fetched P bucket (JStr k) (world s) = (Ok image, w1)
    /\ metadata_of image = Ok m
    /\ stored P bucket (output_key_of (Path.stem k)) (json_dumps P m)
              "application/json" w1 = (Ok tt, world s')
    /\ s' = after_record P s bucket k image m (world s').
Proof.
  intros H. unfold record_body in H.
  apply bind_ok_inv in H as ([bucket key] & s1 & H1 & H).
  apply lift_inv in H1 as [Hcr ->]. cbv zeta in H. simpl fst in H. simpl snd in H.
  apply bind_ok_inv in H as ([] & s2 & H2 & H).
  unfold assign_object_key in H2. inversion H2; subst s2; clear H2.
  apply bind_ok_inv in H as ([] & s3 & H3 & H).
  unfold print in H3. inversion H3; subst s3; clear H3. simpl in H.
  apply bind_ok_inv in H as (image & s4 & H4 & H).
  apply download_from_s3_ok_inv in H4 as [Hf Hs4]. simpl in Hf, Hs4.
  apply bind_ok_inv in H as (m & s5 & H5 & H).
  rewrite build_metadata_spec in H5. inversion H5 as [[Hm Hs5]]; clear H5.
  apply bind_ok_inv in H as ([] & s6 & H6 & H).
  unfold print in H6. inversion H6 as [Hs6]; clear H6.
  apply bind_ok_inv in H as (filename & s7 & H7 & H).
  apply lift_inv in H7 as [Hstem ->].
  destruct key as [| | | |k| |]; try discriminate.
  simpl in Hstem. inversion Hstem; subst filename; clear Hstem.
  apply bind_ok_inv in H as ([] & s8 & H8 & H).
  apply upload_to_s3_ok_inv in H8 as [Hst Hs8].
  apply bind_ok_inv in H as ([] & s9 & H9 & H).
  unfold print in H9. inversion H9 as [Hs9]; clear H9.
  unfold incr_processed, set_counts in H. inversion H as [Hs']; clear H.
  exists bucket, k, image, m, (world s4).
  rewrite Hs4 in Hs5. rewrite <- Hs5 in Hs6. rewrite <- Hs6 in Hs8, Hst.
  simpl in Hs8, Hst.
  rewrite <- Hs9. rewrite Hs8. simpl.
  repeat split; try assumption.
  unfold after_record. simpl. repeat rewrite <- app_assoc. reflexivity.
Qed.

End Trace.

(** ** Failures, counted and reported *)

Section Absorption.
Context {W : Type} (P : platform W).

Lemma failure_lines_app out out' :
  failure_lines (out ++ out') = failure_lines out + failure_lines out'.
Proof.
  induction out as [|l out IH]; simpl; [reflexivity|]. rewrite IH. lia.
Qed.

Lemma failure_lines_tag_errors tags : failure_lines (tag_errors tags) = 0.
Proof.
  induction tags as [|[t v] tags IH]; simpl; [reflexivity|].
  destruct (py_str v); simpl; exact IH.
Qed.

Lemma print_quiet l :
  is_failure_line l = false -> keeps (W:=W) reported (print l).
Proof.
  intros H s. unfold reported, print. simpl.
  rewrite failure_lines_app. simpl. rewrite H. lia.
Qed.

Lemma build_metadata_quiet image :
  keeps (W:=W) reported (build_metadata image).
Proof.
  intros s. rewrite build_metadata_spec. unfold reported, printed, metadata_lines.
  simpl. rewrite failure_lines_app.
  destruct (Image.getexif image) as [[tags|e]|]; simpl; try lia.
  rewrite failure_lines_tag_errors. lia.
Qed.

(** The body of the inner [try] reports no failure. *)
Lemma record_body_quiet s3_event : keeps reported (record_body P s3_event).
Proof.
  unfold record_body.
  pose proof print_quiet as Hprint. pose proof build_metadata_quiet as Hbuild.
  keeps_auto; reflexivity.
Qed.

(** One change record: either it returns, and counts as many failures as
    it reports, or it raises, having counted one failure that it did not
    report. *)
Lemma process_record_absorbs s3_event s :
  let run := process_record P s3_event s in
  processed_count s <= processed_count (snd run)
  /\ match fst run with
     | Ok _ =>
         failed_count (snd run) - failed_count s = reported (snd run) - reported s
         /\ 0 <= reported (snd run) - reported s
     | Raise _ =>
         failed_count (snd run) = failed_count s + 1
         /\ reported (snd run) = reported s
     end.
Proof.
  unfold process_record, try_except.
  pose proof (record_body_quiet s3_event s) as Hq.
  destruct (change_record s3_event) as [[b k]|x] eqn:E.
  - destruct (record_body_keyed P s3_event b k s E) as (Hk & Hf & Hp).
    destruct (record_body P s3_event s) as [[[]|e] s1]; simpl in *.
    + lia.
    + rewrite (record_handler_bound e k s1 Hk). simpl.
      unfold reported in *. simpl. rewrite failure_lines_app. simpl. lia.
  - rewrite (record_body_malformed P s3_event x s E) in *.
    destruct (object_key s) as [k|] eqn:Ek.
    + rewrite (record_handler_bound x k s Ek). simpl.
      unfold reported. simpl. rewrite failure_lines_app. simpl. lia.
    + rewrite (record_handler_unbound x s Ek). simpl.
      unfold reported. simpl. lia.
Qed.

Lemma records_absorb records : forall s,
  let run := for_each records (process_record P) s in
  processed_count s <= processed_count (snd run)
  /\ 0 <= reported (snd run) - reported s
  /\ failed_count (snd run) - failed_count s
     = reported (snd run) - reported s + (if is_ok (fst run) then 0 else 1).
Proof.
  induction records as [|r records IH]; intros s; simpl.
  - lia.
  - pose proof (process_record_absorbs r s) as H1. simpl in H1.
    unfold bind. destruct (process_record P r s) as [[[]|e] s1]; simpl in *.
    + specialize (IH s1). simpl in IH. lia.
    + lia.
Qed.

(** One entry: every failure it counts is reported, by a line of its own
    or by the line of the entry. *)
Lemma process_entry_absorbs sns_record s :
  let run := process_entry P sns_record s in
  processed_count s <= processed_count (snd run)
  /\ reported (snd run) - reported s
     <= failed_count (snd run) - failed_count s
     <= 2 * (reported (snd run) - reported s).
Proof.
  destruct (decode_entry P sns_record) as [records|x] eqn:E; simpl.
  - rewrite (process_entry_decoded P sns_record records s E).
    pose proof (records_absorb records s) as H. simpl in H.
    unfold try_except.
    destruct (for_each records (process_record P) s) as [[[]|e] s1]; simpl in *.
    + lia.
    + unfold reported in *. simpl. rewrite failure_lines_app. simpl. lia.
  - rewrite (process_entry_undecodable P sns_record x s E). simpl.
    unfold reported. simpl. rewrite failure_lines_app. simpl. lia.
Qed.

Lemma entries_absorb entries : forall s s',
  for_each entries (process_entry P) s = (Ok tt, s') ->
  processed_count s <= processed_count s'
  /\ reported s' - reported s
     <= failed_count s' - failed_count s
     <= 2 * (reported s' - reported s).
Proof.
  induction entries as [|e entries IH]; intros s s' H; simpl in H.
  - unfold ret in H. inversion H. lia.
  - apply bind_ok_inv in H as ([] & s1 & H1 & H).
    pose proof (process_entry_absorbs e s) as He. rewrite H1 in He. simpl in He.
    specialize (IH s1 s' H). lia.
Qed.

End Absorption.

(** ** Accounting when every record names its object *)

Section Accounting.
Context {W : Type} (P : platform W).

Lemma entries_accounting entries : forall s,
  all_well_keyed P entries \/ object_key s <> None ->
  exists s',
    for_each entries (process_entry P) s = (Ok tt, s')
    /\ (object_key s <> None -> object_key s' <> None)
    /\ processed_count s <= processed_count s'
    /\ failed_count s <= failed_count s'
    /\ processed_count s' + failed_count s'
       = processed_count s + failed_count s
         + Z.of_nat (decoded_records P entries + decode_failures P entries).
Proof.
  induction entries as [|e entries IH]; intros s H.
  - exists s. simpl. unfold ret. repeat split; auto; lia.
  - assert (Htail : forall s1 : state W,
                    (object_key s <> None -> object_key s1 <> None) ->
                    all_well_keyed P entries \/ object_key s1 <> None).
    { intros s1 Hs1. destruct H as [H|H]; [left | right; auto].
      intros e' rs Hin. apply H. now right. }
    simpl. destruct (decode_entry P e) as [records|x] eqn:E.
    + destruct (records_count_one P records s) as (s1 & E1 & K1 & P1 & F1 & C1).
      { destruct H as [H|H]; [left | now right]. apply (H e); [now left | exact E]. }
      assert (Hentry : process_entry P e s = (Ok tt, s1)).
      { rewrite (process_entry_decoded P e records s E).
        unfold try_except. now rewrite E1. }
      destruct (IH s1 (Htail s1 K1)) as (s2 & E2 & K2 & P2 & F2 & C2).
      exists s2. rewrite (bind_ok _ _ s tt s1 Hentry).
      repeat split; auto; lia.
    + pose proof (process_entry_undecodable P e x s E) as Hentry.
      match type of Hentry with _ = (_, ?st) => set (s1 := st) in * end.
      destruct (IH s1 (Htail s1 (fun K => K))) as (s2 & E2 & K2 & P2 & F2 & C2).
      exists s2. rewrite (bind_ok _ _ s tt s1 Hentry).
      subst s1. simpl in *. repeat split; auto; lia.
Qed.

(** When every decoded change record carries a bucket name and an object
    key, the two counters add up to the decoded records plus the entries
    that did not decode. *)
Lemma accounting_when_keys_present event w :
  is_envelope event = true ->
  all_well_keyed P (entries_of event) ->
  exists sm st,
    invoke P event w = (Ok sm, st)
    /\ 0 <= processed sm /\ 0 <= failed sm
    /\ processed sm + failed sm
       = Z.of_nat (decoded_records P (entries_of event)
                   + decode_failures P (entries_of event)).
Proof.
  intros Henv Hkeys.
  destruct (entries_accounting (entries_of event)
              (loop_start (length (entries_of event)) w) (or_introl Hkeys))
    as (s1 & E1 & _ & P1 & F1 & C1).
  rewrite (invoke_envelope P event w s1 Henv E1).
  do 2 eexists. split; [reflexivity|]. simpl in *. lia.
Qed.

End Accounting.

(** * The metadata dictionary *)

Section Rendering.

Lemma pretty_N_char_numeric x s :
  numeric_head (String (pretty_N_char x) s) = true.
Proof. unfold pretty_N_char. by repeat case_match. Qed.

Lemma pretty_N_go_numeric x : forall s,
  numeric_head s = true -> numeric_head (pretty_N_go x s) = true.
Proof.
  induction (N.lt_wf_0 x) as [x _ IH]; intros s Hs.
  destruct (N.eq_dec x 0%N) as [->|Hx].
  - now rewrite pretty_N_go_0.
  - rewrite pretty_N_go_step by lia.
    apply IH; [apply N.div_lt; lia | apply pretty_N_char_numeric].
Qed.

Lemma pretty_positive_numeric (p : positive) :
  numeric_head (pretty (N.pos p)) = true.
Proof.
  unfold pretty, pretty_N. destruct (decide (N.pos p = 0%N)) as [E|_]; [lia|].
  rewrite pretty_N_go_step by lia.
  apply pretty_N_go_numeric, pretty_N_char_numeric.
Qed.

(** [str] of an integer starts with a digit or a minus sign. *)
Lemma py_str_int_numeric (n : Z) : numeric_head (py_str_int n) = true.
Proof.
  unfold py_str_int, pretty, pretty_Z. destruct n as [|p|p].
  - reflexivity.
  - apply pretty_positive_numeric.
  - reflexivity.
Qed.

Lemma py_str_int_not_base (n : Z) : ~ In (py_str_int n) base_keys.
Proof.
  pose proof (py_str_int_numeric n) as H. unfold base_keys. simpl.
  intros [E|[E|[E|[E|[]]]]]; rewrite <- E in H; discriminate.
Qed.

Lemma py_str_int_inj (m n : Z) : py_str_int m = py_str_int n -> m = n.
Proof. apply pretty_Z_inj. Qed.

(** The tag loop leaves every key alone that is not the rendering of one of
    its tags. *)
Lemma rendered_tags_other tags : forall d k,
  (forall t v, In (t, v) tags -> py_str_int t <> k) ->
  Dict.get k (rendered_tags tags d) = Dict.get k d.
Proof.
  induction tags as [|[t v] tags IH]; intros d k H; simpl; [reflexivity|].
  assert (Hk : py_str_int t <> k) by (apply (H t v); now left).
  assert (Ht : forall t' v', In (t', v') tags -> py_str_int t' <> k)
    by (intros t' v' Hin; apply (H t' v'); now right).
  destruct (py_str v) as [r|e].
  - rewrite IH by exact Ht. now apply get_set_ne.
  - now apply IH.
Qed.


(** Whatever the tag loop adds is a string. *)
Lemma rendered_tags_values tags : forall d k x,
  Dict.get k (rendered_tags tags d) = Some x ->
  Dict.get k d = Some x \/ is_str x = true.
Proof.
  induction tags as [|[t v] tags IH]; intros d k x H; simpl in H; [now left|].
  destruct (py_str v) as [r|e].
  - destruct (IH _ k x H) as [H'|H']; [|now right].
    destruct (String.eqb_spec (py_str_int t) k) as [E|E].
    + subst k. rewrite get_set_eq in H'. inversion H'. now right.
    + rewrite get_set_ne in H' by exact E. now left.
  - now apply IH.
Qed.

Lemma base_metadata_keys image : Dict.keys (base_metadata image) = base_keys.
Proof. reflexivity. Qed.

Lemma rendered_tags_base tags d k :
  In k base_keys -> Dict.get k (rendered_tags tags d) = Dict.get k d.
Proof.
  intros Hk. apply rendered_tags_other. intros t v _ E.
  apply (py_str_int_not_base t). now rewrite E.
Qed.

Lemma tag_errors_In tags t v e :
  In (t, v) tags -> py_str v = Raise e -> In (LTagError t e) (tag_errors tags).
Proof.
  induction tags as [|[t0 v0] tags IH]; intros Hin Hv; [destruct Hin|].
  simpl. destruct Hin as [E|Hin].
  - inversion E; subst. rewrite Hv. now left.
  - destruct (py_str v0); [|right]; now apply IH.
Qed.

End Rendering.

(** ** Records that fail *)

Section Failures.
Context {W : Type} (P : platform W).

(** A download that fails leaves the handler's locals and output alone
    and has asked for the object at most once. *)
Lemma download_from_s3_failed bucket key s e w1 :
  fetched P bucket key (world s) = (Raise e, w1) ->
  exists calls,
    download_from_s3 P bucket key s
    = (Raise e, State (processed_count s) (failed_count s) (object_key s)
                      (stdout s) calls w1)
    /\ (calls = s3_calls s \/ calls = s3_calls s ++ [DownloadFileobj bucket key]).
Proof.
  unfold fetched, download_from_s3, bind, extern, request, lift. simpl.
  destruct (boto3_client P (world s)) as [[[]|x] w0]; simpl.
  - destruct (download_fileobj P bucket key w0) as [[buffer|x] w2]; simpl;
      intros H; inversion H; subst; eauto.
  - intros H. inversion H; subst. eauto.
Qed.

Lemma upload_to_s3_failed bucket key body ct s e w1 :
  stored P bucket key body ct (world s) = (Raise e, w1) ->
  exists calls,
    upload_to_s3 P bucket key (DataText body) ct s
    = (Raise e, State (processed_count s) (failed_count s) (object_key s)
                      (stdout s) calls w1)
    /\ (calls = s3_calls s \/ calls = s3_calls s ++ [PutObject bucket key body ct]).
Proof.
  unfold stored, upload_to_s3, bind, extern, request. simpl.
  destruct (boto3_client P (world s)) as [[[]|x] w0]; simpl.
  - intros H. rewrite H. eauto.
  - intros H. inversion H; subst. eauto.
Qed.

(** The body of the inner [try] ends as the client, the store and the
    decoder decide. *)
Lemma record_body_outcome s3_event bucket key s :
  change_record s3_event = Ok (bucket, key) ->
  fst (record_body P s3_event s) = record_outcome P bucket key (world s).
Proof.
  intros Hcr. unfold record_outcome, record_body.
  erewrite bind_ok by (unfold lift; rewrite Hcr; reflexivity).
  cbv zeta. simpl fst. simpl snd.
  erewrite bind_ok by reflexivity.
  erewrite bind_ok by reflexivity.
  match goal with |- context [bind (download_from_s3 P bucket key) _ ?st] =>
    set (s2 := st); change (world s) with (world s2)
  end.
  destruct (fetched P bucket key (world s2)) as [[image|x] w1] eqn:Hf.
  2: { destruct (download_from_s3_failed bucket key s2 x w1 Hf) as (calls & Hd & _).
       now rewrite (bind_raise _ _ _ _ _ Hd). }
  rewrite (bind_ok _ _ _ _ _ (download_from_s3_fetched P bucket key s2 image w1 Hf)).
  destruct (metadata_of image) as [m|x] eqn:Hm.
  2: { erewrite bind_raise by (rewrite build_metadata_spec, Hm; reflexivity).
       reflexivity. }
  erewrite bind_ok by (rewrite build_metadata_spec, Hm; reflexivity).
  erewrite bind_ok by reflexivity.
  destruct key as [| | | |k| |];
    try (erewrite bind_raise by reflexivity; reflexivity).
  erewrite bind_ok by reflexivity. simpl path_stem. cbv iota.
  cbv zeta.
  match goal with |- context [bind (upload_to_s3 P bucket ?okey ?data ?ct) _ ?st] =>
    set (s5 := st); change w1 with (world s5)
  end.
  destruct (stored P bucket (output_key_of (Path.stem k)) (json_dumps P m)
                   "application/json" (world s5)) as [[[]|x] w2] eqn:Hs.
  - rewrite (bind_ok _ _ _ _ _ (upload_to_s3_stored P bucket _ _ _ s5 w2 Hs)).
    reflexivity.
  - destruct (upload_to_s3_failed bucket _ _ _ s5 x w2 Hs) as (calls & Hu & _).
    now rewrite (bind_raise _ _ _ _ _ Hu).
Qed.

End Failures.

(** * The claims *)

(** C1 (the code departs from the claim).  The claim: every decoded change
    record adds exactly one to exactly one of the two counters.  Here the
    event has one entry whose payload decodes to one change record, the
    empty object; the handler reports two failures for it. *)
Theorem malformed_first_record_counts_twice :
  let payload := JObj [("Records"%string, JArr [JObj []])] in
  let event := Demo.event [Demo.sns_record payload] in
  decode_entry Demo.platform (Demo.sns_record payload) = Ok [JObj []]
  /\ decoded_records Demo.platform (entries_of event) = 1%nat
  /\ decode_failures Demo.platform (entries_of event) = 0%nat
  /\ fst (invoke Demo.platform event Demo.photos) = Ok (Summary 207 0 2).
Proof. vm_compute. auto. Qed.

(** C2 (the code departs from the claim).  The claim: a record that fails,
    also one without its bucket or key fields, counts as one failure and the
    next record of the entry is processed.  Here the entry holds a record
    without fields and then a record naming an object that is in the store;
    two failures are counted, the second record is never fetched and
    nothing is stored. *)
Theorem malformed_first_record_ends_entry :
  let payload :=
    JObj [("Records"%string, JArr [JObj []; Demo.change "album" "scans/page.png"])] in
  let event := Demo.event [Demo.sns_record payload] in
  decode_entry Demo.platform (Demo.sns_record payload)
  = Ok [JObj []; Demo.change "album" "scans/page.png"]
  /\ fst (invoke Demo.platform event Demo.photos) = Ok (Summary 207 0 2)
  /\ s3_calls (snd (invoke Demo.platform event Demo.photos)) = []
  /\ stdout (snd (invoke Demo.platform event Demo.photos))
     = [LTriggered; LReceived 1;
        LEntryFailed (UnboundLocalError "object_key"); LComplete 0 2]
  /\ fst (invoke Demo.platform
            (Demo.event [Demo.sns_record
               (JObj [("Records"%string, JArr [Demo.change "album" "scans/page.png"])])])
            Demo.photos) = Ok (Summary 200 1 0).
Proof. vm_compute. auto 6. Qed.

(** C3.  The status code of a returned summary is 200 exactly when the
    final count of failures is zero, and 207 otherwise. *)
Theorem status_code_reflects_failures {W} (P : platform W) event w sm st :
  invoke P event w = (Ok sm, st) ->
  failed sm = failed_count st
  /\ (statusCode sm = 200 <-> failed sm = 0)
  /\ (failed sm <> 0 -> statusCode sm = 207).
Proof.
  intros H. rewrite (invoke_summary P event w sm st H). simpl.
  unfold status_of. destruct (Z.eqb_spec (failed_count st) 0) as [E|E].
  - split; [reflexivity|]. split; [tauto | congruence].
  - split; [reflexivity|]. split; [|reflexivity]. split; [discriminate | congruence].
Qed.

Lemma status_code_reflects_failures_witness :
  let payload :=
    JObj [("Records"%string,
           JArr [Demo.change "album" "scans/page.png";
                 Demo.change "album" "photos/trip/img001.JPG";
                 Demo.change "album" "missing.jpg"])] in
  let event := Demo.event [Demo.sns_record payload; JObj []] in
  let run := invoke Demo.platform event Demo.photos in
  fst run = Ok (Summary 207 2 2)
  /\ failed (Summary 207 2 2) = failed_count (snd run)
  /\ (statusCode (Summary 207 2 2) = 200 <-> failed (Summary 207 2 2) = 0)
  /\ (failed (Summary 207 2 2) <> 0 -> statusCode (Summary 207 2 2) = 207).
Proof.
  intros payload event run. split; [vm_compute; reflexivity|].
  apply (status_code_reflects_failures Demo.platform event Demo.photos).
  vm_compute. reflexivity.
Defined.

(** C4.  No exception leaves the handler, and every failure is counted
    and reported at the scope where it occurs.

    The handler: on every envelope, whatever its entries hold and however
    the store, the decoder and the codec behave, the loop over the entries
    runs to its end and the handler returns the summary of the counters it
    leaves; the failures counted are at least the failure lines printed and
    at most twice as many.

    An entry: it always returns; a payload that does not decode, or an
    exception that leaves the loop over its records, adds one to the
    failures and prints a line with the error.

    A record: when the body of the inner [try] raises, one failure is
    counted; when [object_key] is bound, to a printable key, a line with
    that key and the error is printed and the loop goes on; when it is not
    bound, the exception that leaves is absorbed by the entry.  The body
    raises exactly as the client, the store and the decoder decide: an
    error of any of them is the error of the record.

    A tag: the loop over the tags returns whatever fails to render, and
    prints a line for each tag that does. *)
Theorem handler_never_raises {W} (P : platform W) :
  (forall event w,
     is_envelope event = true ->
     exists sm st s1,
       invoke P event w = (Ok sm, st)
       /\ for_each (entries_of event) (process_entry P)
                   (loop_start (length (entries_of event)) w) = (Ok tt, s1)
       /\ sm = Summary (status_of (failed_count s1))
                       (processed_count s1) (failed_count s1)
       /\ st = printed s1 [LComplete (processed_count s1) (failed_count s1)]
       /\ 0 <= processed sm
       /\ failure_lines (stdout st) <= failed sm <= 2 * failure_lines (stdout st))
  /\ (forall sns_record s,
        process_entry P sns_record s
        = match decode_entry P sns_record with
          | Raise e => (Ok tt, entry_failed e s)
          | Ok records =>
              match for_each records (process_record P) s with
              | (Ok _, s1) => (Ok tt, s1)
              | (Raise e, s1) => (Ok tt, entry_failed e s1)
              end
          end)
  /\ (forall s3_event s,
        match record_body P s3_event s with
        | (Ok _, s1) => process_record P s3_event s = (Ok tt, s1)
        | (Raise e, s1) =>
            match object_key s1 with
            | Some k =>
                printable k = true ->
                process_record P s3_event s = (Ok tt, record_failed k e s1)
            | None =>
                process_record P s3_event s
                = (Raise (UnboundLocalError "object_key"), counted s1)
            end
        end)
  /\ (forall s3_event s,
        match change_record s3_event with
        | Raise e => record_body P s3_event s = (Raise e, s)
        | Ok (bucket, key) =>
            printable bucket = true -> printable key = true ->
            fst (record_body P s3_event s) = record_outcome P bucket key (world s)
        end)
  /\ (forall tags d (s : state W),
        add_tags tags d s = (Ok (rendered_tags tags d), printed s (tag_errors tags))
        /\ forall t v e,
             In (t, v) tags -> py_str v = Raise e ->
             In (LTagError t e) (tag_errors tags)).
Proof.
  split; [|split; [|split; [|split]]].
  - intros event w Henv.
    destruct (for_each_entries_returns P (entries_of event)
                (loop_start (length (entries_of event)) w)) as (s1 & E1).
    rewrite (invoke_envelope P event w s1 Henv E1).
    do 3 eexists. split; [reflexivity|]. split; [exact E1|].
    split; [reflexivity|]. split; [reflexivity|].
    pose proof (entries_absorb P _ _ _ E1) as H.
    unfold reported in H. simpl in *.
    rewrite failure_lines_app. simpl. lia.
  - intros sns_record s.
    destruct (decode_entry P sns_record) as [records|e] eqn:E.
    + rewrite (process_entry_decoded P sns_record records s E).
      unfold try_except.
      destruct (for_each records (process_record P) s) as [[[]|e] s1]; reflexivity.
    + apply (process_entry_undecodable P sns_record e s E).
  - intros s3_event s. unfold process_record, try_except.
    destruct (record_body P s3_event s) as [[[]|e] s1]; [reflexivity|].
    destruct (object_key s1) as [k|] eqn:Ek.
    + intros _. apply (record_handler_bound e k s1 Ek).
    + unfold counted. rewrite Ek. apply (record_handler_unbound e s1 Ek).
  - intros s3_event s.
    destruct (change_record s3_event) as [[bucket key]|e] eqn:E.
    + intros _ _. now apply record_body_outcome.
    + now apply record_body_malformed.
  - intros tags d s. split; [apply add_tags_spec|].
    intros t v e. apply tag_errors_In.
Qed.

Lemma handler_never_raises_witness :
  let payload :=
    JObj [("Records"%string,
           JArr [Demo.change "album" "scans/page.png";
                 Demo.change "album" "missing.jpg";
                 Demo.change "album" "photos/trip/img001.JPG"])] in
  let event := Demo.event [Demo.sns_record payload; JInt 7] in
  fst (invoke Demo.platform event Demo.photos) = Ok (Summary 207 2 2)
  /\ (exists sm st s1,
        invoke Demo.platform event Demo.photos = (Ok sm, st)
        /\ for_each (entries_of event) (process_entry Demo.platform)
                    (loop_start (length (entries_of event)) Demo.photos) = (Ok tt, s1)
        /\ sm = Summary (status_of (failed_count s1))
                        (processed_count s1) (failed_count s1)
        /\ st = printed s1 [LComplete (processed_count s1) (failed_count s1)]
        /\ 0 <= processed sm
        /\ failure_lines (stdout st) <= failed sm <= 2 * failure_lines (stdout st))
  /\ fst (record_body Demo.platform (Demo.change "album" "missing.jpg")
                      (initial Demo.photos))
     = Raise (LibraryError "NoSuchKey")
  /\ process_record Demo.platform (Demo.change "album" "missing.jpg")
                    (initial Demo.photos)
     = (Ok tt, record_failed (JStr "missing.jpg") (LibraryError "NoSuchKey")
                 (snd (record_body Demo.platform (Demo.change "album" "missing.jpg")
                                   (initial Demo.photos)))).
Proof.
  intros payload event.
  split; [vm_compute; reflexivity|]. split; [|split].
  - apply (proj1 (handler_never_raises Demo.platform) event Demo.photos).
    reflexivity.
  - pose proof (proj1 (proj2 (proj2 (proj2 (handler_never_raises Demo.platform))))
                  (Demo.change "album" "missing.jpg") (initial Demo.photos)) as H.
    simpl in H. rewrite (H eq_refl eq_refl). reflexivity.
  - pose proof (proj1 (proj2 (proj2 (handler_never_raises Demo.platform)))
                  (Demo.change "album" "missing.jpg") (initial Demo.photos)) as H.
    apply H. reflexivity.
Defined.

(** C5.  The derived key for the object "photos/trip/img001.JPG" is
    "processed/exif/img001.json"; and whenever the body of the inner [try]
    runs to its end (the only place where a success is counted) for a record
    whose key is a directory, a slash, a base name, a dot and an extension,
    the object was fetched and decoded, and the store itself, asked to put
    the JSON text of the metadata at "processed/exif/<base name>.json" in
    the bucket of the record, answered without an error: the world the
    record leaves is the one that put left. *)
Theorem sidecar_key {W} (P : platform W) :
  output_key_of (Path.stem "photos/trip/img001.JPG") = "processed/exif/img001.json"%string
  /\ forall s3_event s s' bucket dir base ext,
       record_body P s3_event s = (Ok tt, s') ->
       change_record s3_event
       = Ok (bucket, JStr (dir +:+ String "/" (base +:+ String "." ext))) ->
       base <> EmptyString -> occurs "/" base = false ->
       ext <> EmptyString -> occurs "/" ext = false -> occurs "." ext = false ->
       processed_count s' = processed_count s + 1
       /\ exists image m w1 w2,
            fetched P bucket (JStr (dir +:+ String "/" (base +:+ String "." ext)))
                    (world s) = (Ok image, w1)
            /\ metadata_of image = Ok m
            /\ boto3_client P w1 = (Ok tt, w2)
            /\ put_object P bucket ("processed/exif/" +:+ base +:+ ".json")
                          (json_dumps P m) "application/json" w2
               = (Ok tt, world s')
            /\ s3_calls s'
               = s3_calls s
                 ++ [DownloadFileobj bucket
                       (JStr (dir +:+ String "/" (base +:+ String "." ext)));
                     PutObject bucket ("processed/exif/" +:+ base +:+ ".json")
                               (json_dumps P m) "application/json"].
Proof.
  split; [vm_compute; reflexivity|].
  intros s3_event s s' bucket dir base ext Hrun Hcr Hb Hbs He Hes Hed.
  apply record_body_ok_inv in Hrun
    as (bucket' & k & image & m & w1 & Hcr' & Hf & Hm & Hst & Hs').
  rewrite Hcr in Hcr'. inversion Hcr'; subst bucket' k.
  unfold after_record in Hs'.
  rewrite (stem_of_key dir base ext Hb Hbs He Hes Hed) in Hst, Hs'.
  split; [rewrite Hs'; reflexivity|].
  unfold stored in Hst.
  destruct (boto3_client P w1) as [[[]|x] w2] eqn:Hc; [|discriminate].
  exists image, m, w1, w2.
  repeat split; try assumption.
  rewrite Hs'. reflexivity.
Qed.

Lemma sidecar_key_witness :
  let s := initial Demo.photos in
  let run := record_body Demo.platform (Demo.change "album" "photos/trip/img001.JPG") s in
  fst run = Ok tt
  /\ Demo.find "album" "processed/exif/img001.json" (world (snd run))
     = Some (list_byte_of_string
               (MiniJson.dumps (rendered_tags [ (271, ExifValue (Ok "Canon"%string)) ]
                                              (base_metadata Demo.photo))))
  /\ processed_count (snd run) = processed_count s + 1
  /\ exists image m w1 w2,
       fetched Demo.platform (JStr "album") (JStr "photos/trip/img001.JPG") (world s)
       = (Ok image, w1)
       /\ metadata_of image = Ok m
       /\ boto3_client Demo.platform w1 = (Ok tt, w2)
       /\ put_object Demo.platform (JStr "album") "processed/exif/img001.json"
                     (json_dumps Demo.platform m) "application/json" w2
          = (Ok tt, world (snd run))
       /\ s3_calls (snd run)
          = s3_calls s
            ++ [DownloadFileobj (JStr "album") (JStr "photos/trip/img001.JPG");
                PutObject (JStr "album") "processed/exif/img001.json"
                          (json_dumps Demo.platform m) "application/json"].
Proof.
  intros s run. split; [vm_compute; reflexivity|].
  split; [vm_compute; reflexivity|].
  apply (proj2 (sidecar_key Demo.platform)
           (Demo.change "album" "photos/trip/img001.JPG") s (snd run)
           (JStr "album") "photos/trip" "img001" "JPG");
    solve [vm_compute; reflexivity | discriminate].
Defined.

(** C6, as stated, fails: the values of the dictionary are not all
    strings.  For the scan of the demonstration store the dictionary is
    built and holds the integer 100 under "width". *)
Lemma metadata_values_not_all_strings :
  ~ (forall (image : Image.t) (s : state Demo.store) m s',
       build_metadata image s = (Ok m, s') ->
       forall k v, Dict.get k m = Some v -> is_str v = true).
Proof.
  intros H.
  specialize (H Demo.scan (initial Demo.photos) (base_metadata Demo.scan)
                (initial Demo.photos) eq_refl "width"%string (VInt 100) eq_refl).
  discriminate.
Qed.

(** C6, amended.  A dictionary is built for every image whose EXIF
    extraction does not itself raise, with or without EXIF data; whenever
    one is built, its keys are strings, "width" and "height" hold the
    integers of the decoded image, "format" its format (a string or None),
    "mode" its mode (a string), and every other entry holds a string. *)
Theorem metadata_has_base_entries {W} (image : Image.t) (s : state W) :
  ((forall e, Image.getexif image <> Some (Raise e)) ->
   exists m s', build_metadata image s = (Ok m, s'))
  /\ forall m s',
       build_metadata image s = (Ok m, s') ->
       Dict.get "width" m = Some (VInt (Image.width image))
       /\ Dict.get "height" m = Some (VInt (Image.height image))
       /\ Dict.get "format" m = Some (of_optional_str (Image.format image))
       /\ Dict.get "mode" m = Some (VStr (Image.mode image))
       /\ forall k v, Dict.get k m = Some v -> ~ In k base_keys -> is_str v = true.
Proof.
  split.
  - intros Hno. rewrite build_metadata_spec. unfold metadata_of.
    destruct (Image.getexif image) as [[tags|e]|]; eauto.
    now destruct (Hno e).
  - intros m s' H.
    apply build_metadata_ok_inv in H as (tags & _ & -> & _).
    repeat split;
      try (rewrite rendered_tags_base by (simpl; tauto); reflexivity).
    intros k v Hget Hk.
    destruct (rendered_tags_values tags _ k v Hget) as [Hbase|Hstr]; [|exact Hstr].
    exfalso. apply Hk. rewrite <- (base_metadata_keys image).
    destruct (Dict.get k (base_metadata image)) eqn:E; [|discriminate].
    destruct (in_dec string_dec k (Dict.keys (base_metadata image))) as [Hin|Hout];
      [exact Hin|].
    apply get_None_keys in Hout. congruence.
Qed.

Lemma metadata_has_base_entries_witness :
  exists m s',
    build_metadata Demo.photo (initial Demo.photos) = (Ok m, s')
    /\ Dict.get "width" m = Some (VInt 640)
    /\ Dict.get "height" m = Some (VInt 480)
    /\ Dict.get "format" m = Some (VStr "JPEG")
    /\ Dict.get "mode" m = Some (VStr "RGB")
    /\ forall k v, Dict.get k m = Some v -> ~ In k base_keys -> is_str v = true.
Proof.
  destruct (proj1 (metadata_has_base_entries Demo.photo (initial Demo.photos)))
    as (m & s' & H).
  { intros e. discriminate. }
  exists m, s'. split; [exact H|].
  destruct (proj2 (metadata_has_base_entries Demo.photo (initial Demo.photos)) m s' H)
    as (Hw & Hh & Hf & Hm & Hrest).
  auto.
Defined.

(** C7.  For an image without EXIF data (no [getexif] attribute, or an
    empty EXIF mapping) the dictionary is built, nothing is printed, and its
    keys are exactly "width", "height", "format" and "mode". *)
Theorem no_exif_only_base_keys {W} (image : Image.t) (s : state W) :
  Image.getexif image = None \/ Image.getexif image = Some (Ok []) ->
  build_metadata image s = (Ok (base_metadata image), s)
  /\ Dict.keys (base_metadata image) = ["width"; "height"; "format"; "mode"]%string.
Proof.
  intros [H|H]; (split; [|reflexivity]).
  - now apply build_metadata_no_attribute.
  - rewrite (build_metadata_tags image [] s H). simpl. now rewrite printed_nil.
Qed.

Lemma no_exif_only_base_keys_witness :
  build_metadata Demo.scan (initial Demo.photos)
  = (Ok [ ("width"%string, VInt 100); ("height"%string, VInt 200);
          ("format"%string, VStr "PNG"); ("mode"%string, VStr "L") ],
     initial Demo.photos)
  /\ Dict.keys (base_metadata Demo.scan) = ["width"; "height"; "format"; "mode"]%string.
Proof.
  apply (no_exif_only_base_keys Demo.scan (initial Demo.photos)).
  right. reflexivity.
Defined.



(** C9.  The rendering of a numeric tag identifier is never "width",
    "height", "format" or "mode"; the tag loop, from any dictionary, leaves
    the values under these four keys as they were; so the dictionary built
    for an image holds under them what was set from the image. *)
Theorem tags_never_overwrite_base {W} :
  (forall tag_id : Z, ~ In (py_str_int tag_id) base_keys)
  /\ (forall tags d (s : state W),
        exists m s',
          add_tags tags d s = (Ok m, s')
          /\ Forall (fun k => Dict.get k m = Dict.get k d) base_keys)
  /\ (forall image (s : state W) m s',
        build_metadata image s = (Ok m, s') ->
        Forall (fun k => Dict.get k m = Dict.get k (base_metadata image)) base_keys).
Proof.
  split; [exact py_str_int_not_base|]. split.
  - intros tags d s. rewrite add_tags_spec. do 2 eexists. split; [reflexivity|].
    apply List.Forall_forall. intros k Hk. now apply rendered_tags_base.
  - intros image s m s' H.
    apply build_metadata_ok_inv in H as (tags & _ & -> & _).
    apply List.Forall_forall. intros k Hk. now apply rendered_tags_base.
Qed.

Lemma tags_never_overwrite_base_witness :
  Forall (fun k =>
            Dict.get k (rendered_tags [ (271, ExifValue (Ok "Canon"%string)) ]
                                      (base_metadata Demo.photo))
            = Dict.get k (base_metadata Demo.photo))
         base_keys.
Proof.
  apply (proj2 (proj2 (@tags_never_overwrite_base Demo.store))
           Demo.photo (initial Demo.photos) _
           (snd (build_metadata Demo.photo (initial Demo.photos)))).
  vm_compute. reflexivity.
Defined.

(** C10.  An event without a "Records" key yields the summary 200, 0, 0
    whatever the platform; and an entry whose payload decodes to an object
    without a "Records" key returns normally and leaves both counters, the
    output and the store untouched. *)
Theorem missing_records_is_empty {W} (P : platform W) :
  (forall members w,
     Dict.get "Records" members = None ->
     fst (invoke P (JObj members) w) = Ok (Summary 200 0 0))
  /\ (forall sns_record sns text members s,
        py_getitem sns_record "Sns" = Ok sns ->
        py_getitem sns "Message" = Ok (JStr text) ->
        json_loads P text = Ok (JObj members) ->
        Dict.get "Records" members = None ->
        process_entry P sns_record s = (Ok tt, s)).
Proof.
  split.
  - intros members w H.
    assert (Henv : is_envelope (JObj members) = true) by (simpl; now rewrite H).
    assert (Hnone : entries_of (JObj members) = []) by (simpl; now rewrite H).
    rewrite (invoke_envelope P (JObj members) w
               (loop_start (length (entries_of (JObj members))) w) Henv)
      by (rewrite Hnone; reflexivity).
    reflexivity.
  - intros sns_record sns text members s Hsns Hmsg Hloads Hnone.
    assert (Hdec : decode_entry P sns_record = Ok []).
    { unfold decode_entry, rbind. rewrite Hsns, Hmsg. simpl. rewrite Hloads.
      simpl. now rewrite Hnone. }
    rewrite (process_entry_decoded P sns_record [] s Hdec). reflexivity.
Qed.

Lemma missing_records_is_empty_witness :
  fst (invoke Demo.platform (JObj [("Version"%string, JInt 1)]) Demo.photos)
  = Ok (Summary 200 0 0)
  /\ process_entry Demo.platform
       (Demo.sns_record (JObj [("Type"%string, JStr "Notification")]))
       (initial Demo.photos)
     = (Ok tt, initial Demo.photos).
Proof.
  split.
  - apply (proj1 (missing_records_is_empty Demo.platform)). reflexivity.
  - eapply (proj2 (missing_records_is_empty Demo.platform)).
    + reflexivity.
    + reflexivity.
    + vm_compute. reflexivity.
    + reflexivity.
Defined.

(** * Further properties of the handler *)

(** X1.  When every change record decoded from the envelope carries a
    bucket name and an object key that can be printed, the handler returns,
    both counters are non-negative, and together they count the decoded
    change records plus the entries whose payload did not decode. *)
Theorem counters_add_up_when_keys_present {W} (P : platform W) event w :
  is_envelope event = true ->
  all_printable P (entries_of event) ->
  exists sm st,
    invoke P event w = (Ok sm, st)
    /\ 0 <= processed sm /\ 0 <= failed sm
    /\ processed sm + failed sm
       = Z.of_nat (decoded_records P (entries_of event)
                   + decode_failures P (entries_of event)).
Proof.
  intros Henv Hall. apply accounting_when_keys_present; [exact Henv|].
  intros e records Hin Hdec.
  apply (List.Forall_impl _ (P := fun r => printable_record r = true));
    [|exact (Hall e records Hin Hdec)].
  intros r. unfold printable_record, well_keyed.
  destruct (change_record r); [reflexivity | discriminate].
Qed.

Lemma counters_add_up_when_keys_present_witness :
  let payload :=
    JObj [("Records"%string,
           JArr [Demo.change "album" "scans/page.png";
                 Demo.change "album" "missing.jpg"])] in
  let event := Demo.event [Demo.sns_record payload; JObj []] in
  exists sm st,
    invoke Demo.platform event Demo.photos = (Ok sm, st)
    /\ 0 <= processed sm /\ 0 <= failed sm
    /\ processed sm + failed sm = Z.of_nat (2 + 1).
Proof.
  intros payload event.
  apply (counters_add_up_when_keys_present Demo.platform event Demo.photos).
  - reflexivity.
  - intros e records [<-|[<-|[]]] H; vm_compute in H; inversion H.
    repeat constructor.
Defined.

(** X2.  A change record whose bucket name or object key cannot be read,
    met after an earlier record has bound [object_key] to a key that can be
    printed, is counted as one failure and the loop goes on; the line that
    reports it names the key of that earlier record, not an object of its
    own.  Nothing is asked of the store. *)
Theorem failure_line_names_earlier_key {W} (P : platform W) s3_event e k s :
  change_record s3_event = Raise e ->
  object_key s = Some k ->
  printable k = true ->
  process_record P s3_event s
  = (Ok tt, State (processed_count s) (failed_count s + 1) (Some k)
                  (stdout s ++ [LRecordFailed k e]) (s3_calls s) (world s)).
Proof.
  intros Hcr Hk _. unfold process_record, try_except.
  rewrite (record_body_malformed P s3_event e s Hcr).
  now apply record_handler_bound.
Qed.

Lemma failure_line_names_earlier_key_witness :
  let s := snd (process_record Demo.platform
                  (Demo.change "album" "scans/page.png") (initial Demo.photos)) in
  process_record Demo.platform (JObj []) s
  = (Ok tt, State (processed_count s) (failed_count s + 1)
                  (Some (JStr "scans/page.png"))
                  (stdout s ++ [LRecordFailed (JStr "scans/page.png") (KeyError "s3")])
                  (s3_calls s) (world s)).
Proof.
  intros s.
  apply (failure_line_names_earlier_key Demo.platform (JObj []) (KeyError "s3")
           (JStr "scans/page.png") s); vm_compute; reflexivity.
Defined.

(** X3.  When the first change record of an entry cannot be read and no
    record of the invocation has bound [object_key] yet, the whole entry
    ends there: two failures are counted for it, the only line printed
    reports the entry with an [UnboundLocalError], none of its other
    records is looked at, and nothing is asked of the store. *)
Theorem unread_first_record_ends_entry {W} (P : platform W)
    sns_record s3_event rest e s :
  decode_entry P sns_record = Ok (s3_event :: rest) ->
  change_record s3_event = Raise e ->
  object_key s = None ->
  process_entry P sns_record s
  = (Ok tt, State (processed_count s) (failed_count s + 2) None
                  (stdout s ++ [LEntryFailed (UnboundLocalError "object_key")])
                  (s3_calls s) (world s)).
Proof.
  intros Hdec Hcr Hk.
  rewrite (process_entry_decoded P sns_record (s3_event :: rest) s Hdec).
  unfold try_except. cbn [for_each].
  rewrite (bind_raise _ _ s _ _ (process_record_escapes P s3_event e s Hcr Hk)).
  unfold entry_handler, bind, print, incr_failed, set_counts. simpl.
  replace (failed_count s + 1 + 1) with (failed_count s + 2) by lia.
  reflexivity.
Qed.

Lemma unread_first_record_ends_entry_witness :
  let payload :=
    JObj [("Records"%string, JArr [JInt 0; Demo.change "album" "scans/page.png"])] in
  process_entry Demo.platform (Demo.sns_record payload) (initial Demo.photos)
  = (Ok tt, State 0 (0 + 2) None
                  ([] ++ [LEntryFailed (UnboundLocalError "object_key")])
                  [] Demo.photos).
Proof.
  intros payload.
  apply (unread_first_record_ends_entry Demo.platform (Demo.sns_record payload)
           (JInt 0) [Demo.change "album" "scans/page.png"] TypeError
           (initial Demo.photos)); vm_compute; reflexivity.
Defined.

(** X4.  An entry whose payload does not decode (no "Sns" or "Message"
    field, a message that is not a string or not JSON, a payload that is not
    an object, records that cannot be iterated) is counted as exactly one
    failure and reported by one line carrying the error; the count of
    successes, [object_key], the requests and the store stay as they
    were. *)
Theorem undecodable_entry_counts_once {W} (P : platform W) sns_record e s :
  decode_entry P sns_record = Raise e ->
  process_entry P sns_record s
  = (Ok tt, State (processed_count s) (failed_count s + 1) (object_key s)
                  (stdout s ++ [LEntryFailed e]) (s3_calls s) (world s)).
Proof. apply process_entry_undecodable. Qed.

Lemma undecodable_entry_counts_once_witness :
  process_entry Demo.platform
    (JObj [("Sns"%string, JObj [("Message"%string, JStr "not json")])])
    (initial Demo.photos)
  = (Ok tt, State 0 (0 + 1) None ([] ++ [LEntryFailed JSONDecodeError]) [] Demo.photos).
Proof.
  apply (undecodable_entry_counts_once Demo.platform
           (JObj [("Sns"%string, JObj [("Message"%string, JStr "not json")])])
           JSONDecodeError (initial Demo.photos)).
  vm_compute. reflexivity.
Defined.

(** ** Statements and relations between states *)

Section StepsFacts.
Context {W : Type} (R : state W -> state W -> Prop).
Hypothesis R_refl : forall s, R s s.
Hypothesis R_trans : forall s1 s2 s3, R s1 s2 -> R s2 s3 -> R s1 s3.

Lemma steps_ret {A} (a : A) : steps R (ret a).
Proof. intros s. apply R_refl. Qed.

Lemma steps_lift {A} (r : result A) : steps R (lift r).
Proof. intros s. apply R_refl. Qed.

Lemma steps_bind {A B} (m : M W A) (k : A -> M W B) :
  steps R m -> (forall a, steps R (k a)) -> steps R (bind m k).
Proof.
  intros Hm Hk s. unfold bind. specialize (Hm s).
  destruct (m s) as [[a|e] s1]; simpl in *; [|assumption].
  apply (R_trans s s1); [assumption | apply Hk].
Qed.

Lemma steps_try_except {A} (m : M W A) h :
  steps R m -> (forall e, steps R (h e)) -> steps R (try_except m h).
Proof.
  intros Hm Hh s. unfold try_except. specialize (Hm s).
  destruct (m s) as [[a|e] s1]; simpl in *; [assumption|].
  apply (R_trans s s1); [assumption | apply Hh].
Qed.

Lemma steps_for_each {A} (xs : list A) body :
  (forall x, steps R (body x)) -> steps R (for_each xs body).
Proof.
  intros Hb. induction xs as [|x xs IH]; simpl.
  - apply steps_ret.
  - apply steps_bind; auto.
Qed.

(** A statement that keeps all that [R] looks at steps by [R]. *)
Lemma steps_of_eq {A} (m : M W A) :
  (forall s, snd (m s) = s \/ R s (snd (m s))) -> steps R m.
Proof. intros H s. destruct (H s) as [E|E]; [rewrite E; apply R_refl | exact E]. Qed.

End StepsFacts.

(** ** The requests of an invocation *)

Section Requests.
Context {W : Type} (P : platform W).

Lemma sidecar_trace_app a b :
  sidecar_trace a -> sidecar_trace b -> sidecar_trace (a ++ b).
Proof.
  intros Ha Hb. induction Ha; simpl; [assumption | |]; now constructor.
Qed.

Lemma extends_trace_refl (s : state W) : extends_trace s s.
Proof. exists []. split; [now rewrite app_nil_r | constructor]. Qed.

Lemma extends_trace_trans (s1 s2 s3 : state W) :
  extends_trace s1 s2 -> extends_trace s2 s3 -> extends_trace s1 s3.
Proof.
  intros (a & Ea & Ha) (b & Eb & Hb). exists (a ++ b). split.
  - rewrite Eb, Ea. now rewrite app_assoc.
  - now apply sidecar_trace_app.
Qed.

(** A statement that issues no request extends the trace by nothing. *)
Lemma extends_trace_keeps {A} (m : M W A) :
  keeps s3_calls m -> steps extends_trace m.
Proof.
  intros H s. exists []. split; [rewrite app_nil_r; apply H | constructor].
Qed.

Lemma download_from_s3_requests bucket key s :
  s3_calls (snd (download_from_s3 P bucket key s)) = s3_calls s
  /\ is_ok (fst (download_from_s3 P bucket key s)) = false
  \/ s3_calls (snd (download_from_s3 P bucket key s))
     = s3_calls s ++ [DownloadFileobj bucket key].
Proof.
  unfold download_from_s3, bind, extern, request, lift. simpl.
  destruct (boto3_client P (world s)) as [[[]|e] w1]; simpl; [|now left].
  destruct (download_fileobj P bucket key w1) as [[buffer|e] w2]; simpl; now right.
Qed.

Lemma upload_to_s3_requests bucket key body ct s :
  s3_calls (snd (upload_to_s3 P bucket key (DataText body) ct s)) = s3_calls s
  /\ is_ok (fst (upload_to_s3 P bucket key (DataText body) ct s)) = false
  \/ s3_calls (snd (upload_to_s3 P bucket key (DataText body) ct s))
     = s3_calls s ++ [PutObject bucket key body ct].
Proof.
  unfold upload_to_s3, bind, extern, request. simpl.
  destruct (boto3_client P (world s)) as [[[]|e] w1]; simpl; [|now left].
  destruct (put_object P bucket key body ct w1) as [[[]|e] w2]; simpl; now right.
Qed.

(** The requests of the body of the inner [try], however it ends: none,
    the object, or the object and then its sidecar. *)
Lemma record_body_requests s3_event s :
  match change_record s3_event with
  | Raise _ => s3_calls (snd (record_body P s3_event s)) = s3_calls s
  | Ok (bucket, key) =>
      s3_calls (snd (record_body P s3_event s)) = s3_calls s
      \/ s3_calls (snd (record_body P s3_event s))
         = s3_calls s ++ [DownloadFileobj bucket key]
      \/ exists k body,
           key = JStr k
           /\ s3_calls (snd (record_body P s3_event s))
              = s3_calls s
                ++ [DownloadFileobj bucket (JStr k);
                    PutObject bucket (output_key_of (Path.stem k)) body
                              "application/json"]
  end.
Proof.
  destruct (change_record s3_event) as [[bucket key]|x] eqn:E.
  2: { now rewrite (record_body_malformed P s3_event x s E). }
  unfold record_body.
  erewrite bind_ok by (unfold lift; rewrite E; reflexivity).
  cbv zeta. simpl fst. simpl snd.
  erewrite bind_ok by reflexivity.
  erewrite bind_ok by reflexivity.
  match goal with |- context [bind (download_from_s3 P bucket key) _ ?st] =>
    set (s2 := st); assert (Hs2 : s3_calls s2 = s3_calls s) by reflexivity
  end.
  pose proof (download_from_s3_requests bucket key s2) as Hreq.
  destruct (download_from_s3 P bucket key s2) as [[image|x] s3] eqn:Hd.
  2: { rewrite (bind_raise _ _ s2 x s3 Hd). simpl in Hreq. simpl.
       destruct Hreq as [[Hreq _]|Hreq]; rewrite Hreq; auto. }
  rewrite (bind_ok _ _ s2 image s3 Hd).
  assert (Hs3 : s3_calls s3 = s3_calls s2 ++ [DownloadFileobj bucket key]).
  { simpl in Hreq. destruct Hreq as [[_ Hreq]|Hreq]; [discriminate | exact Hreq]. }
  clear Hreq Hd.
  destruct (metadata_of image) as [m|x] eqn:Hm.
  2: { erewrite bind_raise by (rewrite build_metadata_spec, Hm; reflexivity).
       simpl. rewrite Hs3. auto. }
  erewrite bind_ok by (rewrite build_metadata_spec, Hm; reflexivity).
  erewrite bind_ok by reflexivity.
  destruct key as [| | | |k| |];
    try (erewrite bind_raise by reflexivity; simpl; rewrite Hs3; now auto).
  erewrite bind_ok by reflexivity. cbv zeta.
  match goal with |- context [bind (upload_to_s3 P bucket ?okey ?data ?ct) _ ?st] =>
    set (s5 := st);
    assert (Hs5 : s3_calls s5 = s3_calls s3) by reflexivity;
    pose proof (upload_to_s3_requests bucket okey (json_dumps P m) ct s5) as Hreq;
    destruct (upload_to_s3 P bucket okey data ct s5) as [[[]|x] s6] eqn:Hu
  end.
  - rewrite (bind_ok _ _ s5 tt s6 Hu).
    erewrite bind_ok by reflexivity.
    unfold incr_processed, set_counts. simpl in Hreq. simpl.
    destruct Hreq as [[_ Hreq]|Hreq]; [discriminate|].
    right. right. exists k, (json_dumps P m). split; [reflexivity|].
    rewrite ?Hreq, ?Hs5, ?Hs3, ?Hs2, <- ?app_assoc. reflexivity.
  - rewrite (bind_raise _ _ s5 x s6 Hu). simpl in Hreq. simpl.
    destruct Hreq as [[Hreq _]|Hreq].
    + right. left. rewrite ?Hreq, ?Hs5, ?Hs3, ?Hs2. reflexivity.
    + right. right. exists k, (json_dumps P m). split; [reflexivity|].
      rewrite ?Hreq, ?Hs5, ?Hs3, ?Hs2, <- ?app_assoc. reflexivity.
Qed.

Lemma record_body_extends_trace s3_event :
  steps extends_trace (record_body P s3_event).
Proof.
  intros s. pose proof (record_body_requests s3_event s) as H.
  destruct (change_record s3_event) as [[bucket key]|x].
  - destruct H as [H|[H|(k & body & -> & H)]].
    + exists []. split; [rewrite app_nil_r; exact H | constructor].
    + eexists. split; [exact H | apply trace_fetch, trace_done].
    + eexists. split; [exact H | apply trace_store, trace_done].
  - exists []. split; [rewrite app_nil_r; exact H | constructor].
Qed.

Lemma exif_handler_extends_trace event :
  steps extends_trace (exif_handler P event).
Proof.
  unfold exif_handler.
  repeat first
    [ match goal with |- forall _, _ => intro end
    | apply record_body_extends_trace
    | apply extends_trace_keeps; solve [keeps_auto]
    | apply (steps_for_each extends_trace extends_trace_refl extends_trace_trans)
    | apply (steps_try_except extends_trace extends_trace_trans)
    | apply (steps_bind extends_trace extends_trace_trans)
    | progress unfold process_entry, entry_body, process_record ].
Qed.

End Requests.

Lemma sidecar_trace_no_image_upload calls buffer bucket key :
  sidecar_trace calls -> ~ In (UploadFileobj buffer bucket key) calls.
Proof.
  intros H. induction H; simpl; [tauto | |]; intros Hin.
  - destruct Hin as [Hin|Hin]; [discriminate | tauto].
  - destruct Hin as [Hin|[Hin|Hin]]; [discriminate | discriminate | tauto].
Qed.

Lemma sidecar_trace_put calls bucket key body ct :
  sidecar_trace calls ->
  In (PutObject bucket key body ct) calls ->
  ct = "application/json"%string
  /\ exists k,
       key = output_key_of (Path.stem k)
       /\ In (DownloadFileobj bucket (JStr k)) calls.
Proof.
  intros H. induction H as [|b k0 rest H IH|b k0 body0 rest H IH]; simpl.
  - tauto.
  - intros [Hin|Hin]; [discriminate|].
    destruct (IH Hin) as (Hct & k & Hk & Hd). eauto.
  - intros [Hin|[Hin|Hin]]; [discriminate | |].
    + inversion Hin; subst. split; [reflexivity|]. exists k0. auto.
    + destruct (IH Hin) as (Hct & k & Hk & Hd). eauto 6.
Qed.

(** X5.  Whatever the event and however the platform behaves: every
    change record adds to the requests nothing, or one download of its
    object, or that download followed by one put, and the put only for a
    string key, in the bucket of the record, at the key
    "processed/exif/<stem>.json" derived from its key, with content type
    "application/json".  So the requests of an invocation are downloads,
    each followed at once by the put of its sidecar or by no put at all;
    every put has its download before it, and no image is ever uploaded. *)
Theorem requests_follow_sidecar_pattern {W} (P : platform W) :
  (forall s3_event s,
     exists extra,
       s3_calls (snd (process_record P s3_event s)) = s3_calls s ++ extra
       /\ (extra = []
           \/ exists bucket key,
                change_record s3_event = Ok (bucket, key)
                /\ (extra = [DownloadFileobj bucket key]
                    \/ exists k body,
                         key = JStr k
                         /\ extra
                            = [DownloadFileobj bucket (JStr k);
                               PutObject bucket (output_key_of (Path.stem k)) body
                                         "application/json"])))
  /\ (forall event w,
        sidecar_trace (s3_calls (snd (invoke P event w)))
        /\ (forall buffer bucket key,
              ~ In (UploadFileobj buffer bucket key)
                   (s3_calls (snd (invoke P event w))))
        /\ (forall bucket key body ct,
              In (PutObject bucket key body ct) (s3_calls (snd (invoke P event w))) ->
              ct = "application/json"%string
              /\ exists k,
                   key = output_key_of (Path.stem k)
                   /\ In (DownloadFileobj bucket (JStr k))
                         (s3_calls (snd (invoke P event w))))).
Proof.
  split.
  - intros s3_event s.
    assert (Hsame : s3_calls (snd (process_record P s3_event s))
                    = s3_calls (snd (record_body P s3_event s))).
    { unfold process_record, try_except.
      destruct (record_body P s3_event s) as [[[]|e] s1]; [reflexivity|].
      simpl. unfold record_handler, bind, incr_failed, set_counts, read_object_key.
      simpl. destruct (object_key s1); reflexivity. }
    rewrite Hsame. pose proof (record_body_requests P s3_event s) as H.
    destruct (change_record s3_event) as [[bucket key]|x].
    + destruct H as [H|[H|(k & body & Hk & H)]].
      * exists []. split; [rewrite app_nil_r; exact H | now left].
      * eexists. split; [exact H|]. right. exists bucket, key. auto.
      * eexists. split; [exact H|]. right. exists bucket, key.
        split; [reflexivity|]. right. exists k, body. auto.
    + exists []. split; [rewrite app_nil_r; exact H | now left].
  - intros event w.
    assert (H : sidecar_trace (s3_calls (snd (invoke P event w)))).
    { destruct (exif_handler_extends_trace P event (initial w)) as (extra & E & H).
      unfold invoke. rewrite E. exact H. }
    split; [exact H|]. split.
    + intros buffer bucket key. now apply sidecar_trace_no_image_upload.
    + intros bucket key body ct. now apply sidecar_trace_put.
Qed.

Lemma requests_follow_sidecar_pattern_witness :
  let event :=
    Demo.event [Demo.sns_record
      (JObj [("Records"%string, JArr [Demo.change "album" "scans/page.png"])])] in
  In (PutObject (JStr "album") "processed/exif/page.json"
                (MiniJson.dumps (base_metadata Demo.scan)) "application/json")
     (s3_calls (snd (invoke Demo.platform event Demo.photos)))
  /\ exists k,
       "processed/exif/page.json"%string = output_key_of (Path.stem k)
       /\ In (DownloadFileobj (JStr "album") (JStr k))
             (s3_calls (snd (invoke Demo.platform event Demo.photos))).
Proof.
  intros event.
  assert (Hin : In (PutObject (JStr "album") "processed/exif/page.json"
                      (MiniJson.dumps (base_metadata Demo.scan)) "application/json")
                   (s3_calls (snd (invoke Demo.platform event Demo.photos))))
    by (vm_compute; auto).
  split; [exact Hin|].
  exact (proj2 (proj2 (proj2 (proj2 (requests_follow_sidecar_pattern Demo.platform)
                                     event Demo.photos))
                      _ _ _ _ Hin)).
Defined.

(** ** Successes counted and uploads reported *)

Section Uploads.
Context {W : Type} (P : platform W).

Lemma uploaded_lines_app out out' :
  uploaded_lines (out ++ out') = uploaded_lines out + uploaded_lines out'.
Proof.
  induction out as [|l out IH]; simpl; [reflexivity|].
  destruct l; rewrite IH; lia.
Qed.

Lemma uploaded_lines_tag_errors tags : uploaded_lines (tag_errors tags) = 0.
Proof.
  induction tags as [|[t v] tags IH]; simpl; [reflexivity|].
  destruct (py_str v); simpl; exact IH.
Qed.

Lemma adds_bind {A B} (f : state W -> Z) d (m : M W A) (k : A -> M W B) :
  keeps f m -> (forall a, adds f d (k a)) -> adds f d (bind m k).
Proof.
  intros Hm Hk s. unfold bind. specialize (Hm s).
  destruct (m s) as [[a|e] s1]; simpl in *.
  - rewrite Hk. now rewrite Hm.
  - lia.
Qed.

Lemma print_keeps_uploaded l :
  uploaded_lines [l] = 0 -> keeps (W:=W) uploaded (print l).
Proof.
  intros H s. unfold uploaded, print. simpl stdout.
  rewrite uploaded_lines_app, H. lia.
Qed.

Lemma build_metadata_keeps_uploaded image :
  keeps (W:=W) uploaded (build_metadata image).
Proof.
  intros s. rewrite build_metadata_spec. unfold uploaded, printed, metadata_lines.
  simpl. rewrite uploaded_lines_app.
  destruct (Image.getexif image) as [[tags|e]|]; simpl; try lia.
  rewrite uploaded_lines_tag_errors. lia.
Qed.

Lemma record_end_adds_upload key :
  adds (W:=W) uploaded 1 (bind (print (LUploaded key)) (fun _ => incr_processed)).
Proof.
  intros s. unfold uploaded. simpl. rewrite uploaded_lines_app. reflexivity.
Qed.

Lemma record_end_adds_success key :
  adds (W:=W) processed_count 1
       (bind (print (LUploaded key)) (fun _ => incr_processed)).
Proof. intros s. reflexivity. Qed.

(** The body of the inner [try] reports an upload exactly when it runs to
    its end, which is when it counts a success. *)
Lemma record_body_adds_upload s3_event : adds uploaded 1 (record_body P s3_event).
Proof.
  unfold record_body.
  pose proof print_keeps_uploaded as Hprint.
  pose proof build_metadata_keeps_uploaded as Hbuild.
  repeat first
    [ match goal with |- forall _, _ => intro end
    | progress cbv beta zeta
    | apply record_end_adds_upload
    | apply adds_bind; [solve [keeps_auto; reflexivity] | ] ].
Qed.

Lemma record_body_adds_success s3_event :
  adds processed_count 1 (record_body P s3_event).
Proof.
  unfold record_body.
  pose proof (build_metadata_keeps (W:=W) processed_count) as Hbuild.
  repeat first
    [ match goal with |- forall _, _ => intro end
    | progress cbv beta zeta
    | apply record_end_adds_success
    | apply adds_bind; [solve [keeps_auto] | ] ].
Qed.

Lemma counts_uploads_refl (s : state W) : counts_uploads s s.
Proof. unfold counts_uploads. lia. Qed.

Lemma counts_uploads_trans (s1 s2 s3 : state W) :
  counts_uploads s1 s2 -> counts_uploads s2 s3 -> counts_uploads s1 s3.
Proof. unfold counts_uploads. lia. Qed.

Lemma process_record_counts_uploads s3_event :
  steps counts_uploads (process_record P s3_event).
Proof.
  intros s. unfold process_record, try_except.
  pose proof (record_body_adds_upload s3_event s) as Hu.
  pose proof (record_body_adds_success s3_event s) as Hp.
  destruct (record_body P s3_event s) as [[[]|x] s1]; simpl in *.
  - unfold counts_uploads, uploaded in *. lia.
  - destruct (object_key s1) as [k|] eqn:Ek.
    + rewrite (record_handler_bound x k s1 Ek). simpl.
      unfold counts_uploads, uploaded in *. simpl.
      rewrite uploaded_lines_app. simpl. lia.
    + rewrite (record_handler_unbound x s1 Ek). simpl.
      unfold counts_uploads, uploaded in *. simpl. lia.
Qed.

Lemma entry_handler_counts_uploads e : steps (W:=W) counts_uploads (entry_handler e).
Proof.
  intros s. unfold counts_uploads. simpl. rewrite uploaded_lines_app. simpl. lia.
Qed.

Lemma process_entry_counts_uploads sns_record :
  steps counts_uploads (process_entry P sns_record).
Proof.
  unfold process_entry, entry_body.
  apply (steps_try_except counts_uploads counts_uploads_trans);
    [|apply entry_handler_counts_uploads].
  apply (steps_bind counts_uploads counts_uploads_trans).
  - intros s. apply counts_uploads_refl.
  - intros records.
    apply (steps_for_each counts_uploads counts_uploads_refl counts_uploads_trans).
    apply process_record_counts_uploads.
Qed.

(** What a returned summary says about the run of the loop. *)
Lemma invoke_ok_inv event w sm st :
  invoke P event w = (Ok sm, st) ->
  exists entries n s1,
    for_each entries (process_entry P) (loop_start n w) = (Ok tt, s1)
    /\ sm = Summary (status_of (failed_count s1)) (processed_count s1) (failed_count s1)
    /\ st = State (processed_count s1) (failed_count s1) (object_key s1)
                  (stdout s1 ++ [LComplete (processed_count s1) (failed_count s1)])
                  (s3_calls s1) (world s1).
Proof.
  unfold invoke, exif_handler. intros H.
  apply bind_ok_inv in H as ([] & s1 & H1 & H).
  unfold print in H1. inversion H1; subst s1; clear H1.
  apply bind_ok_inv in H as (records & s2 & H2 & H). apply lift_inv in H2 as [_ ->].
  apply bind_ok_inv in H as (n & s3 & H3 & H). apply lift_inv in H3 as [_ ->].
  apply bind_ok_inv in H as ([] & s4 & H4 & H).
  unfold print in H4. inversion H4; subst s4; clear H4.
  apply bind_ok_inv in H as ([] & s5 & H5 & H).
  unfold set_counts in H5. inversion H5; subst s5; clear H5.
  apply bind_ok_inv in H as (records' & s6 & H6 & H). apply lift_inv in H6 as [_ ->].
  apply bind_ok_inv in H as (entries & s7 & H7 & H). apply lift_inv in H7 as [_ ->].
  apply bind_ok_inv in H as ([] & s8 & H8 & H).
  unfold bind, print, ret in H. simpl in H. inversion H.
  exists entries, n, s8. auto.
Qed.

End Uploads.

(** X6.  In a returned summary the count of successes is the number of
    "Uploaded to" lines on the output: a success is never counted without
    its upload being reported, nor an upload reported without a success
    being counted. *)
Theorem processed_counts_reported_uploads {W} (P : platform W) event w sm st :
  invoke P event w = (Ok sm, st) ->
  processed sm = uploaded_lines (stdout st).
Proof.
  intros H. apply invoke_ok_inv in H as (entries & n & s1 & Hloop & -> & ->).
  pose proof (steps_for_each counts_uploads counts_uploads_refl counts_uploads_trans
                entries (process_entry P) (process_entry_counts_uploads P)
                (loop_start n w)) as Hc.
  rewrite Hloop in Hc. unfold counts_uploads in Hc. simpl in *.
  rewrite uploaded_lines_app. simpl. lia.
Qed.

Lemma processed_counts_reported_uploads_witness :
  let payload :=
    JObj [("Records"%string,
           JArr [Demo.change "album" "scans/page.png";
                 Demo.change "album" "missing.jpg";
                 Demo.change "album" "photos/trip/img001.JPG"])] in
  let run := invoke Demo.platform (Demo.event [Demo.sns_record payload]) Demo.photos in
  fst run = Ok (Summary 207 2 1)
  /\ processed (Summary 207 2 1) = uploaded_lines (stdout (snd run)).
Proof.
  intros payload run. split; [vm_compute; reflexivity|].
  apply (processed_counts_reported_uploads Demo.platform
           (Demo.event [Demo.sns_record payload]) Demo.photos).
  vm_compute. reflexivity.
Defined.

(** ** Keys and their sidecars *)

Section KeyShapes.

Lemma no_dot_is_part base :
  base <> EmptyString -> occurs "." base = false -> Path.is_part base = true.
Proof.
  destruct base as [|a base]; [congruence|]. intros _. simpl.
  unfold Path.is_part. simpl.
  destruct (Ascii.eqb_spec a "."); [discriminate|]. intros _.
  destruct (Ascii.eqb_spec a "."); [congruence | reflexivity].
Qed.

Lemma name_of_key dir file :
  occurs "/" file = false -> Path.is_part file = true ->
  Path.name (dir +:+ String "/" file) = file.
Proof.
  intros Hs Hp. unfold Path.name, Path.parts. rewrite split_app_sep.
  rewrite List.filter_app, (split_no_sep "/" file Hs).
  simpl List.filter. rewrite Hp. apply List.last_last.
Qed.

Lemma stem_without_dot dir base :
  base <> EmptyString -> occurs "/" base = false -> occurs "." base = false ->
  Path.stem (dir +:+ String "/" base) = base.
Proof.
  intros Hb Hs Hd. unfold Path.stem.
  rewrite (name_of_key dir base Hs (no_dot_is_part base Hb Hd)).
  now rewrite (rfind_absent "." base Hd).
Qed.

Lemma stem_of_hidden dir rest :
  rest <> EmptyString -> occurs "/" rest = false -> occurs "." rest = false ->
  Path.stem (dir +:+ String "/" (String "." rest)) = String "." rest.
Proof.
  intros Hr Hs Hd. unfold Path.stem.
  assert (Hp : Path.is_part (String "." rest) = true)
    by (destruct rest; [congruence | reflexivity]).
  rewrite (name_of_key dir (String "." rest)) by (simpl; assumption).
  simpl Path.rfind. rewrite (rfind_absent "." rest Hd). reflexivity.
Qed.

End KeyShapes.

(** X7.  The sidecar key keeps nothing of an object key but the base
    name: two objects in different directories or with different
    extensions, but the same base name, get the same sidecar key. *)
Theorem sidecars_share_key_on_base_name dir dir' base ext ext' :
  base <> EmptyString -> occurs "/" base = false ->
  ext <> EmptyString -> occurs "/" ext = false -> occurs "." ext = false ->
  ext' <> EmptyString -> occurs "/" ext' = false -> occurs "." ext' = false ->
  output_key_of (Path.stem (dir +:+ String "/" (base +:+ String "." ext)))
  = output_key_of (Path.stem (dir' +:+ String "/" (base +:+ String "." ext'))).
Proof.
  intros Hb Hbs He Hes Hed He' Hes' Hed'.
  now rewrite (stem_of_key dir base ext), (stem_of_key dir' base ext').
Qed.

Lemma sidecars_share_key_on_base_name_witness :
  output_key_of (Path.stem "2023/rome/img001.JPG")
  = output_key_of (Path.stem "2024/oslo/img001.png").
Proof.
  apply (sidecars_share_key_on_base_name "2023/rome" "2024/oslo" "img001" "JPG" "png");
    solve [discriminate | reflexivity].
Defined.

(** X8.  The sidecar key for keys of other shapes.  A key without a
    directory, base.ext, gives "processed/exif/base.json"; a key whose last
    component has no dot keeps that component whole; and a last component
    that only starts with a dot is not taken for an extension: the sidecar
    of "dir/.name" is "processed/exif/.name.json". *)
Theorem sidecar_key_shapes :
  (forall base ext,
     base <> EmptyString -> occurs "/" base = false ->
     ext <> EmptyString -> occurs "/" ext = false -> occurs "." ext = false ->
     output_key_of (Path.stem (base +:+ String "." ext))
     = "processed/exif/" +:+ base +:+ ".json")
  /\ (forall dir base,
        base <> EmptyString -> occurs "/" base = false -> occurs "." base = false ->
        output_key_of (Path.stem (dir +:+ String "/" base))
        = "processed/exif/" +:+ base +:+ ".json")
  /\ (forall dir rest,
        rest <> EmptyString -> occurs "/" rest = false -> occurs "." rest = false ->
        output_key_of (Path.stem (dir +:+ String "/" (String "." rest)))
        = "processed/exif/" +:+ String "." rest +:+ ".json").
Proof.
  split; [|split].
  - intros base ext Hb Hbs He Hes Hed. now rewrite stem_of_bare_key.
  - intros dir base Hb Hs Hd. now rewrite stem_without_dot.
  - intros dir rest Hr Hs Hd. now rewrite stem_of_hidden.
Qed.

Lemma sidecar_key_shapes_witness :
  output_key_of (Path.stem "img001.JPG") = "processed/exif/img001.json"%string
  /\ output_key_of (Path.stem "scans/page") = "processed/exif/page.json"%string
  /\ output_key_of (Path.stem "home/.profile") = "processed/exif/.profile.json"%string.
Proof.
  split; [|split].
  - apply (proj1 sidecar_key_shapes "img001" "JPG");
      solve [discriminate | reflexivity].
  - apply (proj1 (proj2 sidecar_key_shapes) "scans" "page");
      solve [discriminate | reflexivity].
  - apply (proj2 (proj2 sidecar_key_shapes) "home" "profile");
      solve [discriminate | reflexivity].
Defined.

(** ** Envelopes none of whose entries decodes *)

Section Undecodable.
Context {W : Type} (P : platform W).

Lemma undecodable_entries entries : forall s,
  Forall (fun e => is_ok (decode_entry P e) = false) entries ->
  exists out,
    for_each entries (process_entry P) s
    = (Ok tt, State (processed_count s)
                    (failed_count s + Z.of_nat (length entries))
                    (object_key s) (stdout s ++ out) (s3_calls s) (world s))
    /\ failure_lines out = Z.of_nat (length entries).
Proof.
  induction entries as [|e entries IH]; intros s H.
  - exists []. simpl. unfold ret. destruct s. simpl.
    rewrite app_nil_r, Z.add_0_r. auto.
  - apply List.Forall_cons_iff in H as [He H].
    destruct (decode_entry P e) as [records|x] eqn:E; [discriminate|].
    cbn [for_each].
    pose proof (process_entry_undecodable P e x s E) as Hent.
    match type of Hent with _ = (_, ?st) => set (s1 := st) in * end.
    rewrite (bind_ok _ _ s tt s1 Hent).
    destruct (IH s1 H) as (out & -> & Hout). subst s1. simpl.
    exists (LEntryFailed x :: out). split.
    + rewrite <- app_assoc. simpl.
      replace (failed_count s + 1 + Z.of_nat (length entries))
        with (failed_count s + Z.pos (Pos.of_succ_nat (length entries))) by lia.
      reflexivity.
    + simpl failure_lines. lia.
Qed.

End Undecodable.

(** X9.  An envelope none of whose entries decodes (the empty envelope is
    one) yields no success and as many failures as it has entries, with
    status 200 only when it is empty; one failure line is printed for each
    entry, nothing is asked of the store and the store is left as it was. *)
Theorem undecodable_envelope_counts_entries {W} (P : platform W) event w :
  is_envelope event = true ->
  Forall (fun e => is_ok (decode_entry P e) = false) (entries_of event) ->
  let n := Z.of_nat (length (entries_of event)) in
  fst (invoke P event w) = Ok (Summary (if n =? 0 then 200 else 207) 0 n)
  /\ failure_lines (stdout (snd (invoke P event w))) = n
  /\ s3_calls (snd (invoke P event w)) = []
  /\ world (snd (invoke P event w)) = w.
Proof.
  intros Henv Hall n.
  destruct (undecodable_entries P (entries_of event)
              (loop_start (length (entries_of event)) w) Hall) as (out & Hloop & Hout).
  rewrite (invoke_envelope P event w _ Henv Hloop). simpl.
  repeat split. rewrite failure_lines_app. simpl. fold n. lia.
Qed.

Lemma undecodable_envelope_counts_entries_witness :
  let event := Demo.event [JInt 1; JObj [("Sns"%string, JObj [])]; Demo.sns_record (JInt 3)] in
  fst (invoke Demo.platform event Demo.photos) = Ok (Summary 207 0 3)
  /\ failure_lines (stdout (snd (invoke Demo.platform event Demo.photos))) = 3
  /\ s3_calls (snd (invoke Demo.platform event Demo.photos)) = []
  /\ world (snd (invoke Demo.platform event Demo.photos)) = Demo.photos.
Proof.
  intros event.
  apply (undecodable_envelope_counts_entries Demo.platform event Demo.photos).
  - reflexivity.
  - repeat constructor.
Defined.

(** ** The order of the entries of the dictionary *)

Section KeyOrder.

Lemma rendered_tags_keys tags : forall d,
  NoDup (map fst tags) ->
  (forall t v, In (t, v) tags -> ~ In (py_str_int t) (Dict.keys d)) ->
  Dict.keys (rendered_tags tags d)
  = Dict.keys d ++ map (fun tag => py_str_int (fst tag)) (List.filter renders tags).
Proof.
  induction tags as [|[t v] tags IH]; intros d Hnd Hfresh.
  - simpl. now rewrite app_nil_r.
  - simpl in Hnd. inversion Hnd as [|? ? Hnew Hnd']; subst.
    assert (Ht : ~ In (py_str_int t) (Dict.keys d))
      by (apply (Hfresh t v); now left).
    cbn [rendered_tags List.filter]. unfold renders at 1. simpl snd.
    destruct (py_str v) as [r|e]; simpl is_ok; cbv iota.
    + rewrite IH; [| exact Hnd' |].
      * rewrite (keys_set_absent _ _ _ Ht). rewrite <- app_assoc. reflexivity.
      * intros t' v' Hin. rewrite (keys_set_absent _ _ _ Ht).
        intros Hk. apply in_app_or in Hk as [Hk|[Hk|[]]].
        -- apply (Hfresh t' v'); [now right | exact Hk].
        -- apply py_str_int_inj in Hk. subst t'. apply Hnew.
           apply list_elem_of_In. apply (in_map fst) in Hin. exact Hin.
    + apply IH; [exact Hnd'|]. intros t' v' Hin. apply (Hfresh t' v'). now right.
Qed.

End KeyOrder.

(** X10.  The dictionary built for an image lists "width", "height",
    "format" and "mode" first and then, in the order of the EXIF mapping,
    the identifiers of the tags whose value renders: this is the order of
    the members of the stored JSON document. *)
Theorem metadata_keys_in_order {W} (image : Image.t) tags (s : state W) m s' :
  Image.getexif image = Some (Ok tags) ->
  NoDup (map fst tags) ->
  build_metadata image s = (Ok m, s') ->
  Dict.keys m
  = ["width"; "height"; "format"; "mode"]%string
    ++ map (fun tag => py_str_int (fst tag)) (List.filter renders tags).
Proof.
  intros Hexif Hnd H.
  rewrite (build_metadata_tags image tags s Hexif) in H. inversion H; subst.
  rewrite rendered_tags_keys; [reflexivity | exact Hnd |].
  intros t v _. rewrite base_metadata_keys. apply py_str_int_not_base.
Qed.

Lemma metadata_keys_in_order_witness :
  Dict.keys (rendered_tags [ (271, ExifValue (Ok "Canon"%string));
                             (37500, ExifValue (Raise (LibraryError "undecodable"))) ]
                           (base_metadata Demo.photo))
  = ["width"; "height"; "format"; "mode"]%string
    ++ map (fun tag => py_str_int (fst tag))
           (List.filter renders
              [ (271, ExifValue (Ok "Canon"%string));
                (37500, ExifValue (Raise (LibraryError "undecodable"))) ]).
Proof.
  apply (metadata_keys_in_order Demo.photo _ (initial Demo.photos) _
           (snd (build_metadata Demo.photo (initial Demo.photos)))).
  - reflexivity.
  - simpl. repeat constructor; simpl; rewrite ?elem_of_cons, elem_of_nil;
      intuition discriminate.
  - vm_compute. reflexivity.
Defined.







(** X14.  A change record whose object key is not a string is never
    counted as a success, whatever the store answers: it is counted as one
    failure, and no put is requested for it. *)
Theorem non_string_key_fails_record {W} (P : platform W) s3_event bucket key s :
  change_record s3_event = Ok (bucket, key) ->
  (forall k, key <> JStr k) ->
  exists s',
    process_record P s3_event s = (Ok tt, s')
    /\ processed_count s' = processed_count s
    /\ failed_count s' = failed_count s + 1
    /\ (s3_calls s' = s3_calls s
        \/ s3_calls s' = s3_calls s ++ [DownloadFileobj bucket key]).
Proof.
  intros Hcr Hkey. unfold process_record, try_except.
  destruct (record_body_keyed P s3_event bucket key s Hcr) as (Hk & Hf & Hp).
  pose proof (record_body_requests P s3_event s) as Hreq. rewrite Hcr in Hreq.
  destruct (record_body P s3_event s) as [[[]|e] s1] eqn:Hrun.
  - apply record_body_ok_inv in Hrun as (b' & k & _ & _ & _ & Hcr' & _).
    rewrite Hcr in Hcr'. inversion Hcr'. now destruct (Hkey k).
  - simpl in *. rewrite (record_handler_bound e key s1 Hk).
    eexists. split; [reflexivity|]. simpl.
    split; [lia|]. split; [lia|].
    destruct Hreq as [H|[H|(k & body & Hk' & _)]]; auto.
    now destruct (Hkey k).
Qed.

Lemma non_string_key_fails_record_witness :
  let s3_event :=
    JObj [("s3"%string,
           JObj [("bucket"%string, JObj [("name"%string, JStr "album")]);
                 ("object"%string, JObj [("key"%string, JInt 7)])])] in
  exists s',
    process_record Demo.platform s3_event (initial Demo.photos) = (Ok tt, s')
    /\ processed_count s' = 0
    /\ failed_count s' = 0 + 1
    /\ (s3_calls s' = []
        \/ s3_calls s' = [] ++ [DownloadFileobj (JStr "album") (JInt 7)]).
Proof.
  intros s3_event.
  apply (non_string_key_fails_record Demo.platform s3_event (JStr "album") (JInt 7)
           (initial Demo.photos)).
  - reflexivity.
  - discriminate.
Defined.

(** ** The two store helpers on their own *)

(** X15.  [upload_to_s3] given an image: the content type passed in plays
    no part; when the call returns, the image was saved as JPEG, whatever
    its own format, and exactly one upload of those bytes was requested;
    when saving raises, the call raises without any request. *)
Theorem upload_of_image_saves_jpeg {W} (P : platform W) bucket key image s :
  (forall ct ct',
     upload_to_s3 P bucket key (DataImage image) ct s
     = upload_to_s3 P bucket key (DataImage image) ct' s)
  /\ (forall ct s',
        upload_to_s3 P bucket key (DataImage image) ct s = (Ok tt, s') ->
        exists buffer,
          Image_save P image "JPEG" = Ok buffer
          /\ s3_calls s' = s3_calls s ++ [UploadFileobj buffer bucket key]
          /\ stdout s' = stdout s)
  /\ (forall ct e,
        Image_save P image "JPEG" = Raise e ->
        is_ok (fst (upload_to_s3 P bucket key (DataImage image) ct s)) = false
        /\ s3_calls (snd (upload_to_s3 P bucket key (DataImage image) ct s))
           = s3_calls s).
Proof.
  split; [reflexivity|]. split.
  - intros ct s'. unfold upload_to_s3, bind, extern, request, lift. simpl.
    destruct (boto3_client P (world s)) as [[[]|x] w0]; simpl; [|discriminate].
    destruct (Image_save P image "JPEG") as [buffer|x]; simpl; [|discriminate].
    destruct (upload_fileobj P buffer bucket key w0) as [[[]|x] w1];
      [|discriminate].
    intros H. inversion H; subst. exists buffer. auto.
  - intros ct e He. unfold upload_to_s3, bind, extern, request, lift. simpl.
    destruct (boto3_client P (world s)) as [[[]|x] w0]; simpl; [|auto].
    rewrite He. auto.
Qed.

Lemma upload_of_image_saves_jpeg_witness :
  let s := initial Demo.photos in
  let run := upload_to_s3 Demo.platform (JStr "album") "thumb.png"
                          (DataImage Demo.scan) "image/png" s in
  fst run = Ok tt
  /\ exists buffer,
       Image_save Demo.platform Demo.scan "JPEG" = Ok buffer
       /\ s3_calls (snd run)
          = s3_calls s ++ [UploadFileobj buffer (JStr "album") "thumb.png"]
       /\ stdout (snd run) = stdout s.
Proof.
  intros s run. split; [reflexivity|].
  apply (proj1 (proj2 (upload_of_image_saves_jpeg Demo.platform (JStr "album")
                         "thumb.png" Demo.scan s)) "image/png" (snd run)).
  reflexivity.
Defined.

(** X16.  [download_from_s3] asks the store for the object at most once,
    and exactly once when it returns an image; it returns what the client,
    the store and the decoder give in turn, an error of any of them being
    passed on as it is; and it changes neither the counters, nor
    [object_key], nor the output. *)
Theorem download_asks_once {W} (P : platform W) bucket key s :
  fst (download_from_s3 P bucket key s) = fst (fetched P bucket key (world s))
  /\ world (snd (download_from_s3 P bucket key s))
     = snd (fetched P bucket key (world s))
  /\ processed_count (snd (download_from_s3 P bucket key s)) = processed_count s
  /\ failed_count (snd (download_from_s3 P bucket key s)) = failed_count s
  /\ object_key (snd (download_from_s3 P bucket key s)) = object_key s
  /\ stdout (snd (download_from_s3 P bucket key s)) = stdout s
  /\ (s3_calls (snd (download_from_s3 P bucket key s)) = s3_calls s
      /\ is_ok (fst (download_from_s3 P bucket key s)) = false
      \/ s3_calls (snd (download_from_s3 P bucket key s))
         = s3_calls s ++ [DownloadFileobj bucket key]).
Proof.
  unfold fetched, download_from_s3, bind, extern, request, lift. simpl.
  destruct (boto3_client P (world s)) as [[[]|x] w0]; simpl.
  - destruct (download_fileobj P bucket key w0) as [[buffer|x] w1]; simpl;
      repeat split; auto.
  - repeat split; auto.
Qed.

(** X17.  Take an entry whose readable records have a bucket name and a
    key that can be printed.  When all its records are readable, or when a
    record of the invocation has already bound [object_key] to a key that
    can be printed, the loop over the records runs to its end whatever fails
    on the way: each record adds exactly one to one of the two counters, and
    neither counter ever goes down. *)
Theorem bound_key_isolates_records {W} (P : platform W) records s :
  Forall (fun r => well_keyed r = true -> printable_record r = true) records ->
  Forall (fun r => well_keyed r = true) records
  \/ (exists k, object_key s = Some k /\ printable k = true) ->
  exists s',
    for_each records (process_record P) s = (Ok tt, s')
    /\ processed_count s <= processed_count s'
    /\ failed_count s <= failed_count s'
    /\ processed_count s' + failed_count s'
       = processed_count s + failed_count s + Z.of_nat (length records).
Proof.
  intros _ H.
  destruct (records_count_one P records s) as (s' & E & _ & Hp & Hf & Hc).
  { destruct H as [H|(k & Hk & _)]; [now left | right; congruence]. }
  eauto.
Qed.

Lemma bound_key_isolates_records_witness :
  let s := snd (process_record Demo.platform
                  (Demo.change "album" "scans/page.png") (initial Demo.photos)) in
  let records := [JObj []; Demo.change "album" "missing.jpg"; JNull;
                  Demo.change "album" "photos/trip/img001.JPG"] in
  exists s',
    for_each records (process_record Demo.platform) s = (Ok tt, s')
    /\ processed_count s <= processed_count s'
    /\ failed_count s <= failed_count s'
    /\ processed_count s' + failed_count s'
       = processed_count s + failed_count s + Z.of_nat 4.
Proof.
  intros s records.
  apply (bound_key_isolates_records Demo.platform records s).
  - repeat (apply List.Forall_cons; [vm_compute; intros H; exact H|]).
    apply List.Forall_nil.
  - right. exists (JStr "scans/page.png"). split; vm_compute; reflexivity.
Defined.
